(** * PageRank: a shallow embedding of [pagerank.py]

    The three core functions of the program, [transition_model],
    [sample_pagerank] and [iterate_pagerank], are embedded as executable
    Rocq functions.  Python dictionaries are association lists in insertion
    order, Python sets are duplicate-free lists, exceptions are an error
    monad, the pseudo-random generator is an explicit state, and the
    [while] loop of the iterative ranker is a fuelled loop.

    The arithmetic of the program is abstracted by the class [Number] and
    interpreted twice: in exact rational arithmetic ([Q], kept in lowest
    terms) for the algebraic properties, and in IEEE 754 binary64 (the
    [float] of Python) for the statements about concrete outputs. *)

From Stdlib Require Import List String Bool Arith ZArith QArith Qabs.
From Stdlib Require Import Lia Lqa SpecFloat.
Import ListNotations.

Set Implicit Arguments.

Local Open Scope string_scope.
Local Open Scope list_scope.

(** ** Exceptions *)

(** The built-in exceptions the program can raise, and the two error names
    of the specification ([InvalidCorpus], [ConvergenceError]), which no
    [raise] statement of the source mentions. *)
Inductive exn : Type :=
| KeyError
| IndexError
| ZeroDivisionError
| ValueError
| InvalidCorpus
| ConvergenceError.

Inductive result (A : Type) : Type :=
| Ok (a : A)
| Raise (e : exn).

Arguments Ok {A} a.
Arguments Raise {A} e.

Definition bind {A B : Type} (m : result A) (k : A -> result B) : result B :=
  match m with
  | Ok a => k a
  | Raise e => Raise e
  end.

Notation "x <- m ;; k" := (bind m (fun x => k))
  (at level 61, m at next level, right associativity).
Notation "' pat <- m ;; k" := (bind m (fun x => match x with pat => k end))
  (at level 61, pat pattern, m at next level, right associativity).

(** [for x in xs: body], threading the loop state [s]. *)
Fixpoint for_each {A S : Type} (xs : list A) (body : S -> A -> result S)
    (s : S) : result S :=
  match xs with
  | [] => Ok s
  | x :: xs' => s' <- body s x ;; for_each xs' body s'
  end.

(** ** Dictionaries and sets *)

Definition page := string.

(** A [dict] with string keys, in insertion order. *)
Definition dict (V : Type) := list (page * V).

Definition keys {V : Type} (d : dict V) : list page := map fst d.
Definition values {V : Type} (d : dict V) : list V := map snd d.

(** [d[k]] *)
Fixpoint getitem {V : Type} (d : dict V) (k : page) : result V :=
  match d with
  | [] => Raise KeyError
  | (k', v) :: d' => if String.eqb k k' then Ok v else getitem d' k
  end.

(** [d[k] = v]: an existing key keeps its position, a new key is appended. *)
Fixpoint setitem {V : Type} (d : dict V) (k : page) (v : V) : dict V :=
  match d with
  | [] => [(k, v)]
  | (k', v') :: d' =>
      if String.eqb k k' then (k', v) :: d' else (k', v') :: setitem d' k v
  end.

(** [x in s] for a set [s]. *)
Definition contains (s : list page) (x : page) : bool :=
  existsb (String.eqb x) s.

(** [len(xs)], a Python [int]. *)
Definition len {A : Type} (xs : list A) : Z := Z.of_nat (List.length xs).

(** The truth value of a container: [not s] holds for the empty one. *)
Definition is_empty {A : Type} (xs : list A) : bool :=
  match xs with [] => true | _ => false end.

Fixpoint nodupb (xs : list page) : bool :=
  match xs with
  | [] => true
  | x :: xs' => negb (contains xs' x) && nodupb xs'
  end.

(** The corpus: a [dict] from page to the [set] of pages it links to. *)
Definition corpus_t := dict (list page).

(** What being a [dict] of [set]s means for the lists: no key and no
    element of a set occurs twice. *)
Definition well_formed (corpus : corpus_t) : bool :=
  nodupb (keys corpus) && forallb nodupb (values corpus).

(** The Link Graph invariants of the specification: every link targets a
    key of the corpus, and no page links to itself. *)
Definition links_closed (corpus : corpus_t) : bool :=
  forallb (fun kv => forallb (contains (keys corpus)) (snd kv)) corpus.

Definition no_self_link (corpus : corpus_t) : bool :=
  forallb (fun kv => negb (contains (snd kv) (fst kv))) corpus.

Definition link_graph (corpus : corpus_t) : bool :=
  well_formed corpus && links_closed corpus && no_self_link corpus.

(** ** Arithmetic *)

(** The operations the program applies to numbers.  [quot] is the
    quotient by a non-zero divisor; the zero test of [/] is [truediv]. *)
Class Number (R : Type) : Type := {
  of_Z : Z -> R;
  add : R -> R -> R;
  sub : R -> R -> R;
  mul : R -> R -> R;
  quot : R -> R -> R;
  absolute : R -> R;
  eqb : R -> R -> bool;
  leb : R -> R -> bool;
  ltb : R -> R -> bool;
  isfinite : R -> bool
}.

Section Arithmetic.
Context {R : Type} `{Number R}.

(** [x / y] *)
Definition truediv (x y : R) : result R :=
  if eqb y (of_Z 0) then Raise ZeroDivisionError
  else Ok (quot x y).

(** The decimal literal [m * 10^-k], as in [0.85] or [0.001]: the
    correctly rounded quotient of two integers. *)
Definition decimal (m : Z) (k : nat) : R :=
  quot (of_Z m) (of_Z (10 ^ Z.of_nat k)).

(** [sum(xs)] *)
Definition total (xs : list R) : R := fold_left add xs (of_Z 0).
End Arithmetic.

(** Exact rational arithmetic, every result in lowest terms. *)
#[export] Instance Q_Number : Number Q := {|
  of_Z := inject_Z;
  add := fun x y => Qred (x + y);
  sub := fun x y => Qred (x - y);
  mul := fun x y => Qred (x * y);
  quot := fun x y => Qred (x / y);
  absolute := Qabs;
  eqb := Qeq_bool;
  leb := Qle_bool;
  ltb := fun x y => negb (Qle_bool y x);
  isfinite := fun _ => true
|}.

(** IEEE 754 binary64 with round-to-nearest-even: Python's [float]. *)
Module Binary64.
Definition prec : Z := 53.
Definition emax : Z := 1024.
Definition t := spec_float.

Definition finite (x : t) : bool :=
  match x with
  | S754_zero _ | S754_finite _ _ _ => true
  | _ => false
  end.
End Binary64.

#[export] Instance float_Number : Number Binary64.t := {|
  of_Z := fun z => binary_normalize Binary64.prec Binary64.emax z 0 false;
  add := SFadd Binary64.prec Binary64.emax;
  sub := SFsub Binary64.prec Binary64.emax;
  mul := SFmul Binary64.prec Binary64.emax;
  quot := SFdiv Binary64.prec Binary64.emax;
  absolute := SFabs;
  eqb := SFeqb;
  leb := SFleb;
  ltb := SFltb;
  isfinite := Binary64.finite
|}.

(** ** The transition model *)

Section Program.
Context {R : Type} `{Number R}.

Definition DAMPING : R := decimal 85 2.
Definition SAMPLES : Z := 10000.

(** [transition_model(corpus, page, damping_factor)] *)
Definition transition_model (corpus : corpus_t) (page : page)
    (damping_factor : R) : result (dict R) :=
  prob <- for_each (keys corpus)
            (fun prob web =>
               q <- truediv (sub (of_Z 1) damping_factor)
                      (of_Z (len corpus)) ;;
               Ok (setitem prob web q))
            [] ;;
  links <- getitem corpus page ;;
  for_each links
    (fun prob link =>
       old <- getitem prob link ;;
       links' <- getitem corpus page ;;
       q <- truediv damping_factor (of_Z (len links')) ;;
       Ok (setitem prob link (add old q)))
    prob.


(** ** The sampling ranker *)

(** The pseudo-random generator of the [random] module: a state [G], a
    source of random integers (behind [_randbelow]) and [random()], the
    next variate of the unit interval.  [choice] and [choices] follow
    their definitions in CPython's [random.py]. *)
Variable G : Type.
Variable getrandbits : G -> nat * G.
Variable random : G -> R * G.

(** [_randbelow(n)] for [n > 0]: an integer of [range(n)]. *)
Definition randbelow (g : G) (n : nat) : nat * G :=
  let '(bits, g') := getrandbits g in (bits mod n, g').

(** [seq[i]] *)
Definition index {A : Type} (xs : list A) (i : nat) : result A :=
  match nth_error xs i with
  | Some x => Ok x
  | None => Raise IndexError
  end.

(** [random.choice(seq)] *)
Definition choice {A : Type} (g : G) (xs : list A) : result (A * G) :=
  if is_empty xs then Raise IndexError
  else
    let '(i, g') := randbelow g (List.length xs) in
    x <- index xs i ;; Ok (x, g').

(** [itertools.accumulate(ws)]: the running sums. *)
Fixpoint accumulate_from (acc : R) (ws : list R) : list R :=
  match ws with
  | [] => []
  | w :: ws' => let acc' := add acc w in acc' :: accumulate_from acc' ws'
  end.

Definition accumulate (ws : list R) : list R :=
  match ws with
  | [] => []
  | w :: ws' => w :: accumulate_from w ws'
  end.

(** [bisect.bisect_right(a, x, lo, hi)]: the loop halves [hi - lo], so
    [hi - lo] iterations are enough. *)
Fixpoint bisect_loop (steps : nat) (a : list R) (x : R) (lo hi : nat)
    : result nat :=
  match steps with
  | O => Ok lo
  | S steps' =>
      if (lo <? hi)%nat then
        let mid := ((lo + hi) / 2)%nat in
        a_mid <- index a mid ;;
        if ltb x a_mid then bisect_loop steps' a x lo mid
        else bisect_loop steps' a x (mid + 1) hi
      else Ok lo
  end.

Definition bisect (a : list R) (x : R) (lo hi : nat) : result nat :=
  bisect_loop (hi - lo) a x lo hi.

(** [random.choices(population, weights=weights, k=1)[0]] *)
Definition choices {A : Type} (g : G) (population : list A)
    (weights : list R) : result (A * G) :=
  let n := List.length population in
  let cum_weights := accumulate weights in
  if negb (List.length cum_weights =? n)%nat then Raise ValueError
  else
    last_weight <- index cum_weights (List.length cum_weights - 1) ;;
    let total := add last_weight (of_Z 0) in
    if leb total (of_Z 0) then Raise ValueError
    else if negb (isfinite total) then Raise ValueError
    else
      let hi := (n - 1)%nat in
      let '(u, g') := random g in
      i <- bisect cum_weights (mul u total) 0 hi ;;
      x <- index population i ;;
      Ok (x, g').

(** [range(n)] *)
Definition range (n : Z) : list Z := map Z.of_nat (seq 0 (Z.to_nat n)).

(** [sample_pagerank(corpus, damping_factor, n)], run from the generator
    state [g]. *)
Definition sample_pagerank (g : G) (corpus : corpus_t)
    (damping_factor : R) (n : Z) : result (dict R) :=
  prank <- for_each (keys corpus)
             (fun prank web => Ok (setitem prank web (of_Z 0))) [] ;;
  '(page, g) <- choice g (keys corpus) ;;
  old <- getitem prank page ;;
  q <- truediv (of_Z 1) (of_Z n) ;;
  let prank := setitem prank page (add old q) in
  '(_, prank, _) <-
    for_each (range n)
      (fun '(page, prank, g) i =>
         dist <- transition_model corpus page damping_factor ;;
         '(page, g) <- choices g (keys dist) (values dist) ;;
         old <- getitem prank page ;;
         q <- truediv (of_Z 1) (of_Z n) ;;
         Ok (page, setitem prank page (add old q), g))
      (page, prank, g) ;;
  Ok prank.

(** ** The iterative ranker *)

(** The body of [for web in corpus] (lines 164 to 170): the rank that
    the page [web] gets, read from the dictionary [rank] as it is now. *)
Definition new_rank (corpus : corpus_t) (damping_factor : R)
    (rank : dict R) (web : page) : result R :=
  sigma <- for_each (keys corpus)
             (fun sigma link =>
                links <- getitem corpus link ;;
                if contains links web then
                  r <- getitem rank link ;;
                  links' <- getitem corpus link ;;
                  q <- truediv r (of_Z (len links')) ;;
                  Ok (add sigma q)
                else
                  links' <- getitem corpus link ;;
                  if is_empty links' then
                    r <- getitem rank link ;;
                    q <- truediv r (of_Z (len corpus)) ;;
                    Ok (add sigma q)
                  else Ok sigma)
             (of_Z 0) ;;
  base <- truediv (sub (of_Z 1) damping_factor) (of_Z (len corpus)) ;;
  Ok (add base (mul damping_factor sigma)).

(** The literal [0.001]. *)
Definition tolerance : R := decimal 1 3.

(** One execution of the body of [while check] up to the test of
    [count] (lines 162 to 173): the dictionary [rank] is updated in
    place, page after page, and [count] counts the pages within
    tolerance. *)
Definition pass (corpus : corpus_t) (damping_factor : R) (rank : dict R)
    : result (dict R * nat) :=
  for_each (keys corpus)
    (fun '(rank, count) web =>
       prob <- new_rank corpus damping_factor rank web ;;
       old <- getitem rank web ;;
       let count :=
         if leb (absolute (sub old prob)) tolerance then (count + 1)%nat
         else count in
       Ok (setitem rank web prob, count))
    (rank, O).

(** [if count >= len(corpus): check = False] *)
Definition converged (corpus : corpus_t) (count : nat) : bool :=
  (len corpus <=? Z.of_nat count)%Z.

(** [while check: ...], with a bound on the number of passes that the
    source does not have: [None] means that [fuel] passes were not
    enough for the loop to exit. *)
Fixpoint while_check (fuel : nat) (corpus : corpus_t) (damping_factor : R)
    (rank : dict R) : option (result (dict R)) :=
  match fuel with
  | O => None
  | S fuel' =>
      match pass corpus damping_factor rank with
      | Raise e => Some (Raise e)
      | Ok (rank', count) =>
          if converged corpus count then Some (Ok rank')
          else while_check fuel' corpus damping_factor rank'
      end
  end.

(** The first loop of [iterate_pagerank]: every page starts at [1/N]. *)
Definition initial_rank (corpus : corpus_t) : result (dict R) :=
  for_each (keys corpus)
    (fun rank web =>
       q <- truediv (of_Z 1) (of_Z (len corpus)) ;;
       Ok (setitem rank web q))
    [].

(** [iterate_pagerank(corpus, damping_factor)] *)
Definition iterate_pagerank (fuel : nat) (corpus : corpus_t)
    (damping_factor : R) : option (result (dict R)) :=
  match initial_rank corpus with
  | Raise e => Some (Raise e)
  | Ok rank => while_check fuel corpus damping_factor rank
  end.

(** A pass as the specification words it: every new rank is computed
    from the snapshot [rank] taken before the pass, and the new ranks go
    to a dictionary of their own. *)
Definition snapshot_pass (corpus : corpus_t) (damping_factor : R)
    (rank : dict R) : result (dict R) :=
  for_each (keys corpus)
    (fun new web =>
       prob <- new_rank corpus damping_factor rank web ;;
       Ok (setitem new web prob))
    rank.
End Program.

Definition example_corpus : corpus_t :=
  [("1.html", ["2.html"; "3.html"]); ("2.html", ["3.html"]);
   ("3.html", ["2.html"])].

(** A generator that cycles through the pages and the unit interval. *)
Definition counter_bits (g : nat) : nat * nat := (g, S g).
Definition counter_random (g : nat) : Q * nat :=
  (Z.of_nat (g mod 7) # 7, S g).


(** * Properties *)

Unset Implicit Arguments.

(** ** Loops and dictionaries *)

Lemma bind_ok {A B : Type} (m : result A) (k : A -> result B) (b : B) :
  bind m k = Ok b -> exists a, m = Ok a /\ k a = Ok b.
Proof.
  destruct m as [a|e]; simpl; intros E; [eauto | discriminate].
Qed.

Lemma Ok_inj {A : Type} (a b : A) : Ok a = Ok b -> a = b.
Proof. congruence. Qed.

Lemma bind_Ok {A B : Type} (m : result A) (a : A) (k : A -> result B) :
  m = Ok a -> bind m k = k a.
Proof. now intros ->. Qed.

Lemma for_each_cons {A S : Type} (x : A) (xs : list A)
    (body : S -> A -> result S) (s s1 : S) :
  body s x = Ok s1 -> for_each (x :: xs) body s = for_each xs body s1.
Proof. intros E. cbn [for_each]. now rewrite E. Qed.


(** A loop whose iterations all succeed succeeds. *)
Lemma for_each_total {A S : Type} (P : S -> Prop) (xs : list A)
    (body : S -> A -> result S) :
  (forall s x, In x xs -> P s -> exists s', body s x = Ok s' /\ P s') ->
  forall s, P s -> exists s', for_each xs body s = Ok s' /\ P s'.
Proof.
  induction xs as [|x xs IH]; simpl; intros Hb s Hs; [eauto|].
  destruct (Hb s x (or_introl eq_refl) Hs) as (s1 & E1 & H1).
  rewrite E1; simpl. apply IH; auto.
Qed.

Lemma contains_In (s : list page) (x : page) :
  contains s x = true <-> In x s.
Proof.
  unfold contains. rewrite existsb_exists. split.
  - intros (y & Hy & E). apply String.eqb_eq in E. now subst.
  - intros Hx. exists x. split; [assumption | apply String.eqb_refl].
Qed.

Lemma contains_not_In (s : list page) (x : page) :
  contains s x = false <-> ~ In x s.
Proof.
  rewrite <- contains_In. destruct (contains s x); split; congruence.
Qed.

Lemma nodupb_NoDup (xs : list page) : nodupb xs = true <-> NoDup xs.
Proof.
  induction xs as [|x xs IH]; simpl.
  - split; [constructor | reflexivity].
  - rewrite andb_true_iff, negb_true_iff, contains_not_In, IH.
    split; [intros [? ?]; now constructor | now inversion 1].
Qed.

Section Dict.
Variable V : Type.
Implicit Types (d : dict V) (k : page) (v : V).

Lemma getitem_In d k : In k (keys d) <-> exists v, getitem d k = Ok v.
Proof.
  induction d as [|[k' v'] d IH]; simpl.
  - split; [tauto | intros [v E]; discriminate].
  - destruct (String.eqb_spec k k') as [->|Hne].
    + split; eauto.
    + rewrite <- IH. split; [intros [E|Hin]; [congruence|assumption] | auto].
Qed.

Lemma getitem_In_pair d k v : getitem d k = Ok v -> In (k, v) d.
Proof.
  induction d as [|[k' v'] d IH]; simpl; [discriminate|].
  destruct (String.eqb_spec k k') as [->|Hne]; intros E.
  - inversion E; subst. now left.
  - right. auto.
Qed.

Lemma In_pair_getitem d k v :
  NoDup (keys d) -> In (k, v) d -> getitem d k = Ok v.
Proof.
  induction d as [|[k' v'] d IH]; simpl; [tauto|].
  intros Hnd [E|Hin]; inversion Hnd as [|? ? Hk Hd]; subst.
  - inversion E; subst. now rewrite String.eqb_refl.
  - destruct (String.eqb_spec k k') as [->|Hne]; [|auto].
    exfalso. apply Hk. change k' with (fst (k', v)). now apply in_map.
Qed.

Lemma keys_setitem_In d k v : In k (keys d) -> keys (setitem d k v) = keys d.
Proof.
  induction d as [|[k' v'] d IH]; simpl; [tauto|].
  destruct (String.eqb_spec k k') as [->|Hne]; simpl; [reflexivity|].
  intros [E|Hin]; [congruence | now rewrite IH].
Qed.

Lemma setitem_fresh d k v : ~ In k (keys d) -> setitem d k v = d ++ [(k, v)].
Proof.
  induction d as [|[k' v'] d IH]; simpl; [reflexivity|].
  destruct (String.eqb_spec k k') as [->|Hne]; intros Hk; [tauto|].
  now rewrite IH by tauto.
Qed.

Lemma getitem_setitem_same d k v : getitem (setitem d k v) k = Ok v.
Proof.
  induction d as [|[k' v'] d IH]; simpl.
  - now rewrite String.eqb_refl.
  - destruct (String.eqb_spec k k') as [->|Hne]; simpl.
    + now rewrite String.eqb_refl.
    + destruct (String.eqb_spec k k'); [contradiction | assumption].
Qed.

Lemma getitem_setitem_other d k k' v :
  k' <> k -> getitem (setitem d k v) k' = getitem d k'.
Proof.
  intros Hne. induction d as [|[k0 v0] d IH]; simpl.
  - destruct (String.eqb_spec k' k); [contradiction | reflexivity].
  - destruct (String.eqb_spec k k0) as [->|Hk]; simpl.
    + destruct (String.eqb_spec k' k0); [contradiction | reflexivity].
    + now rewrite IH.
Qed.

(** The pairs of a dictionary after [d[k] = v], for an existing key. *)
Lemma In_setitem d k v k' v' :
  In (k', v') (setitem d k v) -> In (k', v') d \/ (k' = k /\ v' = v).
Proof.
  induction d as [|[k0 v0] d IH]; simpl.
  - intros [E|[]]. inversion E; auto.
  - destruct (String.eqb_spec k k0) as [->|Hk]; simpl.
    + intros [E|Hin]; [inversion E; auto | auto].
    + intros [E|Hin]; [auto | destruct (IH Hin); auto].
Qed.
End Dict.

(** [for web in ks: d[web] = v] on a dictionary that has none of the
    keys [ks] appends them in order. *)
Lemma fill_loop {V : Type} (body : dict V -> page -> result (dict V)) (v : V)
    (ks : list page) :
  (forall d k, body d k = Ok (setitem d k v)) ->
  forall d, NoDup (keys d ++ ks) ->
  for_each ks body d = Ok (d ++ map (fun k => (k, v)) ks).
Proof.
  intros Hb. induction ks as [|k ks IH]; intros d Hnd; simpl.
  - now rewrite app_nil_r.
  - rewrite Hb; simpl.
    assert (Hk : ~ In k (keys d)).
    { apply NoDup_remove_2 in Hnd. intros Hin. apply Hnd, in_or_app. auto. }
    rewrite (setitem_fresh _ d k v Hk), IH.
    + now rewrite <- app_assoc.
    + unfold keys in *. rewrite map_app. simpl. now rewrite <- app_assoc.
Qed.

(** ** Exact arithmetic *)

Local Open Scope Q_scope.

Ltac qnum :=
  cbv [of_Z add sub mul quot absolute eqb leb ltb isfinite Q_Number] in *.

(** The sum of a list of rationals, without the reductions of [total]. *)
Fixpoint Qsum (xs : list Q) : Q :=
  match xs with
  | [] => 0
  | x :: xs' => x + Qsum xs'
  end.

Lemma total_Qsum (xs : list Q) : total xs == Qsum xs.
Proof.
  unfold total. qnum.
  assert (G : forall a, fold_left (fun x y => Qred (x + y)) xs a == a + Qsum xs).
  { induction xs as [|x xs IH]; intros a; cbn [fold_left Qsum]; [ring|].
    rewrite IH, Qred_correct. ring. }
  rewrite G. ring.
Qed.

Lemma truediv_Q (x y : Q) : ~ y == 0 -> truediv x y = Ok (Qred (x / y)).
Proof.
  intros Hy. unfold truediv. qnum.
  destruct (Qeq_bool y (inject_Z 0)) eqn:E; [|reflexivity].
  apply Qeq_bool_eq in E. contradiction.
Qed.

Lemma len_positive {A : Type} (xs : list A) : xs <> [] -> 0 < inject_Z (len xs).
Proof.
  intros Hxs. unfold len. change 0 with (inject_Z 0). rewrite <- Zlt_Qlt.
  destruct xs; [congruence | simpl; lia].
Qed.

Lemma len_nonzero {A : Type} (xs : list A) :
  xs <> [] -> ~ inject_Z (len xs) == 0.
Proof.
  intros Hxs E. pose proof (len_positive xs Hxs) as Hp. rewrite E in Hp.
  now apply Qlt_irrefl in Hp.
Qed.

Lemma len_keys {V : Type} (d : dict V) : len (keys d) = len d.
Proof. unfold len, keys. now rewrite length_map. Qed.

Lemma Qsum_setitem (d : dict Q) (k : page) (old v : Q) :
  getitem d k = Ok old ->
  Qsum (values (setitem d k v)) == Qsum (values d) - old + v.
Proof.
  induction d as [|[k' v'] d IH]; cbn [getitem setitem]; [discriminate|].
  destruct (String.eqb_spec k k') as [->|Hne]; intros E;
    cbn [values map snd Qsum].
  - inversion E; subst. ring.
  - fold (values (setitem d k v)). rewrite (IH E). fold (values d). ring.
Qed.

Lemma Qsum_constant {A : Type} (f : A -> page * Q) (q : Q) (xs : list A) :
  (forall x, snd (f x) = q) ->
  Qsum (values (map f xs)) == inject_Z (len xs) * q.
Proof.
  intros Hf. unfold len. induction xs as [|x xs IH].
  - cbn. ring.
  - cbn [map values Qsum List.length snd] in *. rewrite IH, Hf.
    rewrite Nat2Z.inj_succ, <- Z.add_1_r, inject_Z_plus. ring.
Qed.

(** [d[k] += q] *)
Definition bump (q : Q) (d : dict Q) (k : page) : result (dict Q) :=
  old <- getitem d k ;; Ok (setitem d k (add old q)).

Definition occurrences (k : page) (ks : list page) : Z :=
  Z.of_nat (count_occ string_dec ks k).

Lemma bump_step (q : Q) (d : dict Q) (k : page) :
  In k (keys d) ->
  exists d', bump q d k = Ok d' /\ keys d' = keys d /\
    Qsum (values d') == Qsum (values d) + q /\
    forall k' v, getitem d k' = Ok v ->
      exists v', getitem d' k' = Ok v' /\
        v' == v + inject_Z (occurrences k' [k]) * q.
Proof.
  intros Hk. destruct (proj1 (getitem_In _ d k) Hk) as [old E].
  unfold bump. rewrite E. cbn [bind]. eexists. split; [reflexivity|].
  split; [now apply keys_setitem_In|]. split.
  - rewrite (Qsum_setitem d k old _ E). qnum. rewrite Qred_correct. ring.
  - intros k' v E'. unfold occurrences. cbn [count_occ].
    destruct (string_dec k k') as [<-|Hne].
    + rewrite getitem_setitem_same. eexists. split; [reflexivity|].
      qnum. rewrite Qred_correct. replace v with old by congruence.
      change (inject_Z (Z.of_nat 1)) with 1. ring.
    + rewrite getitem_setitem_other by congruence. exists v.
      split; [assumption|]. change (inject_Z (Z.of_nat 0)) with 0. ring.
Qed.

Lemma occurrences_cons (k x : page) (xs : list page) :
  inject_Z (occurrences k (x :: xs)) ==
  inject_Z (occurrences k [x]) + inject_Z (occurrences k xs).
Proof.
  unfold occurrences. cbn [count_occ]. rewrite <- inject_Z_plus.
  destruct (string_dec x k);
    match goal with
    | |- inject_Z ?a == inject_Z ?b => replace a with b by lia
    end; reflexivity.
Qed.

(** [for link in links: d[link] += q] *)
Lemma bump_loop (q : Q) (links : list page) (d : dict Q) :
  (forall l, In l links -> In l (keys d)) ->
  exists d', for_each links (bump q) d = Ok d' /\ keys d' = keys d /\
    Qsum (values d') == Qsum (values d) + inject_Z (len links) * q /\
    forall k v, getitem d k = Ok v ->
      exists v', getitem d' k = Ok v' /\
        v' == v + inject_Z (occurrences k links) * q.
Proof.
  revert d. induction links as [|l links IH]; intros d Hin.
  - exists d. cbn [for_each]. repeat split; [unfold len; cbn; ring|].
    intros k v E. exists v. split; [assumption|].
    unfold occurrences; cbn. ring.
  - destruct (bump_step q d l (Hin l (or_introl eq_refl)))
      as (d1 & E1 & K1 & S1 & V1).
    destruct (IH d1) as (d2 & E2 & K2 & S2 & V2).
    { intros l' Hl'. rewrite K1. apply Hin. now right. }
    exists d2. cbn [for_each]. rewrite E1. cbn [bind]. split; [assumption|].
    split; [congruence|]. split.
    + rewrite S2, S1. unfold len. cbn [List.length].
      rewrite Nat2Z.inj_succ, <- Z.add_1_r, inject_Z_plus. ring.
    + intros k v E. destruct (V1 k v E) as (v1 & Ev1 & Hv1).
      destruct (V2 k v1 Ev1) as (v2 & Ev2 & Hv2).
      exists v2. split; [assumption|].
      rewrite Hv2, Hv1, (occurrences_cons k l links). ring.
Qed.


Lemma for_each_ext {A S : Type} (xs : list A) (f g : S -> A -> result S) :
  (forall s x, In x xs -> f s x = g s x) ->
  forall s, for_each xs f s = for_each xs g s.
Proof.
  induction xs as [|x xs IH]; intros Hfg s; cbn [for_each]; [reflexivity|].
  rewrite (Hfg s x (or_introl eq_refl)). destruct (g s x); cbn [bind]; auto.
  apply IH. intros s0 y Hy. apply Hfg. now right.
Qed.

(** ** The transition model *)

(** The dictionary in which every page of [ks] has the value [v]. *)
Definition constant_dict (ks : list page) (v : Q) : dict Q :=
  map (fun k => (k, v)) ks.

Lemma keys_constant_dict (ks : list page) (v : Q) : keys (constant_dict ks v) = ks.
Proof.
  unfold keys, constant_dict. rewrite map_map. cbn [fst]. apply map_id.
Qed.

Section TransitionModel.
Variable corpus : corpus_t.
Variable current : page.
Variable d : Q.
Variable links : list page.

Hypothesis keys_distinct : NoDup (keys corpus).
Hypothesis nonempty : corpus <> [].
Hypothesis current_links : getitem corpus current = Ok links.

(** The mass [(1 - damping_factor) / N] as the program computes it. *)
Definition base_mass : Q := Qred (Qred (1 - d) / inject_Z (len corpus)).

Lemma base_mass_correct : base_mass == (1 - d) / inject_Z (len corpus).
Proof. unfold base_mass. now rewrite !Qred_correct. Qed.

Lemma first_loop :
  for_each (keys corpus)
    (fun prob web =>
       q <- truediv (sub (of_Z 1) d) (of_Z (len corpus)) ;;
       Ok (setitem prob web q)) [] =
  Ok (constant_dict (keys corpus) base_mass).
Proof.
  apply (fill_loop _ base_mass); [|assumption].
  intros p k. qnum. now rewrite (truediv_Q _ _ (len_nonzero corpus nonempty)).
Qed.

(** The function is its two loops: the constant dictionary, then one
    [+=] per link of the current page. *)
Lemma transition_model_loops :
  transition_model corpus current d =
  for_each links (bump (Qred (d / inject_Z (len links))))
    (constant_dict (keys corpus) base_mass).
Proof.
  unfold transition_model. rewrite first_loop. cbn [bind].
  rewrite current_links. cbn [bind]. apply for_each_ext.
  intros p l Hl. unfold bump. cbv beta.
  destruct (getitem p l); cbn [bind]; [|reflexivity].
  qnum. rewrite truediv_Q; [reflexivity|].
  apply len_nonzero. intros ->. destruct Hl.
Qed.

Lemma transition_model_spec :
  (forall l, In l links -> In l (keys corpus)) ->
  exists prob,
    transition_model corpus current d = Ok prob /\
    keys prob = keys corpus /\
    Qsum (values prob) == (1 - d) + (if is_empty links then 0 else d) /\
    forall web, In web (keys corpus) ->
      exists v, getitem prob web = Ok v /\
        v == (1 - d) / inject_Z (len corpus) +
             inject_Z (occurrences web links) * (d / inject_Z (len links)).
Proof.
  intros Hclosed. rewrite transition_model_loops.
  destruct (bump_loop (Qred (d / inject_Z (len links))) links
              (constant_dict (keys corpus) base_mass))
    as (prob & E & K & S & V).
  { now rewrite keys_constant_dict. }
  rewrite keys_constant_dict in K.
  exists prob. repeat split; try assumption.
  - rewrite S. unfold constant_dict.
    rewrite (Qsum_constant (fun k => (k, base_mass)) base_mass) by reflexivity.
    rewrite len_keys, base_mass_correct, Qred_correct.
    pose proof (len_nonzero corpus nonempty) as HN.
    destruct links as [|l ls] eqn:El; cbn [is_empty].
    + change (inject_Z (len (@nil page))) with 0. rewrite Qmult_0_l.
      field. exact HN.
    + assert (HL : ~ inject_Z (len (l :: ls)) == 0) by (now apply len_nonzero).
      field. split; assumption.
  - intros web Hweb.
    destruct (V web base_mass) as (v & Ev & Hv).
    { apply In_pair_getitem; [now rewrite keys_constant_dict|].
      unfold constant_dict. now apply (in_map (fun k => (k, base_mass))). }
    exists v. split; [assumption|].
    now rewrite Hv, base_mass_correct, Qred_correct.
Qed.
End TransitionModel.

Definition dangling_corpus : corpus_t :=
  [("1.html", ["2.html"]); ("2.html", [])].

(** A page without links gets no share of [damping_factor]: every page
    keeps the base mass and the values sum to [1 - damping_factor]. *)
Lemma transition_model_dangling (corpus : corpus_t) (current : page) (d : Q) :
  NoDup (keys corpus) -> corpus <> [] -> getitem corpus current = Ok [] ->
  exists prob,
    transition_model corpus current d = Ok prob /\
    keys prob = keys corpus /\
    total (values prob) == 1 - d /\
    forall web v, getitem prob web = Ok v ->
      v == (1 - d) / inject_Z (len corpus).
Proof.
  intros Hnd Hne Hcur.
  destruct (transition_model_spec corpus current d [] Hnd Hne Hcur)
    as (prob & E & K & S & V); [intros l []|].
  exists prob. repeat split; try assumption.
  - rewrite total_Qsum, S. cbn [is_empty]. ring.
  - intros web v Ev.
    destruct (V web) as (v' & Ev' & Hv').
    { rewrite <- K. apply getitem_In. eauto. }
    replace v with v' by congruence. rewrite Hv'.
    unfold occurrences. cbn [count_occ Z.of_nat]. change (inject_Z 0) with 0.
    ring.
Qed.

(** From a page that has links the values sum to one. *)
Lemma transition_model_linked (corpus : corpus_t) (current : page) (d : Q)
    (links : list page) :
  NoDup (keys corpus) -> getitem corpus current = Ok links -> links <> [] ->
  (forall l, In l links -> In l (keys corpus)) ->
  exists prob,
    transition_model corpus current d = Ok prob /\
    keys prob = keys corpus /\
    total (values prob) == 1.
Proof.
  intros Hnd Hcur Hlinks Hclosed.
  assert (Hne : corpus <> []) by (intros ->; discriminate).
  destruct (transition_model_spec corpus current d links Hnd Hne Hcur Hclosed)
    as (prob & E & K & S & _).
  exists prob. repeat split; try assumption.
  rewrite total_Qsum, S. destruct links; [congruence|]. cbn [is_empty]. ring.
Qed.

Lemma link_graph_keys (corpus : corpus_t) :
  link_graph corpus = true -> NoDup (keys corpus).
Proof.
  unfold link_graph, well_formed. rewrite !andb_true_iff.
  intros [[[Hk _] _] _]. now apply nodupb_NoDup.
Qed.

Lemma link_graph_closed (corpus : corpus_t) (k : page) (links : list page) :
  link_graph corpus = true -> getitem corpus k = Ok links ->
  forall l, In l links -> In l (keys corpus).
Proof.
  unfold link_graph, links_closed. rewrite !andb_true_iff.
  intros [[_ Hc] _] Hk l Hl. rewrite forallb_forall in Hc.
  specialize (Hc _ (getitem_In_pair _ _ _ _ Hk)). cbn [snd] in Hc.
  rewrite forallb_forall in Hc. now apply contains_In, Hc.
Qed.






(** C1 (defect of the code): the page ["2.html"] of [dangling_corpus] has
    no outbound link, and [transition_model] gives each of the two pages
    the base mass [(1 - 0.85) / 2 = 0.075] alone, not [1/2]: the second
    loop has nothing to iterate over and the share [damping_factor] is
    never distributed.  The same holds in binary64. *)
Theorem transition_model_dangling_not_uniform :
  transition_model (R:=Q) dangling_corpus "2.html" DAMPING =
    Ok [("1.html", 3 # 40); ("2.html", 3 # 40)] /\
  ~ (3 # 40 == 1 / inject_Z (len dangling_corpus)) /\
  exists v : Binary64.t,
    transition_model dangling_corpus "2.html" DAMPING =
      Ok [("1.html", v); ("2.html", v)] /\
    ltb v (decimal 1 1) = true.
Proof.
  split; [reflexivity|]. split; [discriminate|].
  eexists. split; [vm_compute; reflexivity | vm_compute; reflexivity].
Qed.

(** C2 (defect of the code): on the link graph [dangling_corpus] and its
    page ["2.html"], the distribution has one entry per page, but its
    values sum to [1 - 0.85 = 0.15], not to one. *)
Theorem transition_model_dangling_sum :
  link_graph dangling_corpus = true /\
  exists prob,
    transition_model (R:=Q) dangling_corpus "2.html" DAMPING = Ok prob /\
    keys prob = keys dangling_corpus /\
    total (values prob) == 3 # 20 /\
  exists probf : dict Binary64.t,
    transition_model dangling_corpus "2.html" DAMPING = Ok probf /\
    ltb (total (values probf)) (decimal 2 1) = true.
Proof.
  split; [reflexivity|]. eexists. split; [reflexivity|].
  split; [reflexivity|]. split; [reflexivity|].
  eexists. split; [vm_compute; reflexivity | vm_compute; reflexivity].
Qed.

(** C8, as stated, fails in binary64: [1 - 0.85] is rounded to
    [0.15000000000000002] and its third to [0.05000000000000001], so the
    value of ["1.html"] is not the [float] [0.05]. *)
Lemma transition_model_example_not_exact :
  exists (prob : dict Binary64.t) (v : Binary64.t),
    transition_model example_corpus "1.html" DAMPING = Ok prob /\
    getitem prob "1.html" = Ok v /\
    eqb v (decimal 5 2) = false /\
    prob <> [("1.html", decimal 5 2); ("2.html", decimal 475 3);
             ("3.html", decimal 475 3)].
Proof.
  eexists. eexists. split; [vm_compute; reflexivity|].
  split; [reflexivity|]. split; [vm_compute; reflexivity|].
  vm_compute. discriminate.
Qed.

(** C8, amended: on the example corpus, from ["1.html"] and with damping
    0.85, the values are exactly 0.05, 0.475 and 0.475 in exact
    arithmetic; in binary64 the values of ["2.html"] and ["3.html"] are
    the [float] 0.475 and the value of ["1.html"] is the [float] next
    above 0.05. *)
Theorem transition_model_example_values :
  transition_model (R:=Q) example_corpus "1.html" DAMPING =
    Ok [("1.html", 1 # 20); ("2.html", 19 # 40); ("3.html", 19 # 40)] /\
  transition_model (R:=Binary64.t) example_corpus "1.html" DAMPING =
    Ok [("1.html", SFsucc Binary64.prec Binary64.emax (decimal 5 2));
        ("2.html", decimal 475 3); ("3.html", decimal 475 3)].
Proof.
  split; [reflexivity | vm_compute; reflexivity].
Qed.

(** ** The sampling ranker *)

Lemma index_lt {A : Type} (xs : list A) (i : nat) :
  (i < List.length xs)%nat -> exists x, index xs i = Ok x /\ In x xs.
Proof.
  intros Hi. unfold index. destruct (nth_error xs i) as [x|] eqn:E.
  - exists x. split; [reflexivity | eapply nth_error_In; eassumption].
  - apply nth_error_None in E. lia.
Qed.

Lemma length_accumulate_from (acc : Q) (ws : list Q) :
  List.length (accumulate_from acc ws) = List.length ws.
Proof.
  revert acc. induction ws as [|w ws IH]; intros acc; cbn; [reflexivity|].
  now rewrite IH.
Qed.

Lemma length_accumulate (ws : list Q) :
  List.length (accumulate ws) = List.length ws.
Proof.
  destruct ws as [|w ws]; cbn; [reflexivity|].
  now rewrite length_accumulate_from.
Qed.

Lemma last_accumulate_from (ws : list Q) (acc : Q) :
  ws <> [] ->
  exists v, index (accumulate_from acc ws) (List.length ws - 1) = Ok v /\
    v == acc + Qsum ws.
Proof.
  revert acc. induction ws as [|w ws IH]; intros acc Hws; [congruence|].
  destruct ws as [|w' ws].
  - exists (Qred (acc + w)). split; [reflexivity|].
    rewrite Qred_correct. cbn [Qsum]. ring.
  - destruct (IH (Qred (acc + w))) as (v & Ev & Hv); [discriminate|].
    exists v. split.
    + cbn [List.length Nat.sub] in *. rewrite Nat.sub_0_r in *. exact Ev.
    + rewrite Hv, Qred_correct. cbn [Qsum]. ring.
Qed.

(** The last running sum is the sum of the weights. *)
Lemma last_accumulate (ws : list Q) :
  ws <> [] ->
  exists v, index (accumulate ws) (List.length (accumulate ws) - 1) = Ok v /\
    v == Qsum ws.
Proof.
  intros Hws. rewrite length_accumulate.
  destruct ws as [|w ws]; [congruence|]. destruct ws as [|w' ws].
  - exists w. split; [reflexivity | cbn [Qsum]; ring].
  - destruct (last_accumulate_from (w' :: ws) w) as (v & Ev & Hv);
      [discriminate|].
    exists v. split; [|rewrite Hv; cbn [Qsum]; ring].
    cbn [List.length Nat.sub] in *. rewrite Nat.sub_0_r in *. exact Ev.
Qed.

(** The binary search ends between its bounds. *)
Lemma bisect_loop_bounds (a : list Q) (x : Q) (steps lo hi : nat) :
  (lo <= hi)%nat -> (hi <= List.length a)%nat ->
  exists i, bisect_loop steps a x lo hi = Ok i /\ (lo <= i <= hi)%nat.
Proof.
  revert lo hi. induction steps as [|steps IH]; intros lo hi Hlo Hhi;
    cbn [bisect_loop].
  - exists lo. split; [reflexivity | lia].
  - destruct (Nat.ltb_spec lo hi) as [Hlt|Hge]; [|exists lo; split; [reflexivity | lia]].
    assert (Hmid : (lo <= (lo + hi) / 2 < hi)%nat).
    { split.
      - apply Nat.div_le_lower_bound; lia.
      - apply Nat.Div0.div_lt_upper_bound; lia. }
    destruct (index_lt a ((lo + hi) / 2)) as (a_mid & E & _); [lia|].
    rewrite E. cbn [bind].
    destruct (ltb x a_mid).
    + destruct (IH lo ((lo + hi) / 2)%nat) as (i & Ei & Hi); [lia | lia|].
      exists i. split; [assumption | lia].
    + destruct (IH ((lo + hi) / 2 + 1)%nat hi) as (i & Ei & Hi); [lia | lia|].
      exists i. split; [assumption | lia].
Qed.

Section Generator.
Variable G : Type.
Variable getrandbits : G -> nat * G.
Variable random : G -> Q * G.

(** [random.choice] returns an element of a non-empty sequence. *)
Lemma choice_total {A : Type} (g : G) (xs : list A) :
  xs <> [] -> exists x g', choice getrandbits g xs = Ok (x, g') /\ In x xs.
Proof.
  intros Hxs. unfold choice, randbelow.
  destruct xs as [|x0 xs0] eqn:Exs; [congruence|]. cbn [is_empty].
  rewrite <- Exs. destruct (getrandbits g) as [bits g'].
  destruct (index_lt xs (bits mod List.length xs)) as (x & E & Hx).
  { apply Nat.mod_upper_bound. rewrite Exs. discriminate. }
  rewrite E. cbn [bind]. eauto.
Qed.

(** [random.choices] returns an element of the population when there is
    one weight per element and the weights have a positive sum. *)
Lemma choices_total {A : Type} (g : G) (population : list A)
    (weights : list Q) :
  population <> [] -> List.length weights = List.length population ->
  0 < Qsum weights ->
  exists x g', choices random g population weights = Ok (x, g') /\
    In x population.
Proof.
  intros Hpop Hlen Hsum. unfold choices.
  rewrite length_accumulate, Hlen, Nat.eqb_refl. cbn [negb].
  assert (Hws : weights <> []).
  { intros ->. destruct population; [congruence | discriminate]. }
  destruct (last_accumulate weights Hws) as (v & Ev & Hv).
  rewrite length_accumulate, Hlen in Ev. rewrite Ev. cbn [bind]. qnum.
  destruct (Qle_bool (Qred (v + inject_Z 0)) (inject_Z 0)) eqn:Ele.
  { apply Qle_bool_iff in Ele. rewrite Qred_correct, Hv in Ele.
    change (inject_Z 0) with 0 in Ele. lra. }
  cbn [negb]. destruct (random g) as [u g'].
  assert (Hpos : (0 < List.length population)%nat).
  { destruct population; [congruence | cbn; lia]. }
  destruct (bisect_loop_bounds (accumulate weights)
              (Qred (u * Qred (v + inject_Z 0)))
              (List.length population - 1 - 0) 0
              (List.length population - 1)) as (i & Ei & Hi);
    [lia | rewrite length_accumulate; lia|].
  unfold bisect. qnum. rewrite Ei. cbn [bind].
  destruct (index_lt population i) as (x & Ex & Hx); [lia|].
  rewrite Ex. cbn [bind]. eauto.
Qed.
End Generator.

(** The pages that [sample_pagerank] draws, in order: the values that its
    variable [page] takes.  The generator is consulted as in
    [sample_pagerank]; only the bookkeeping of [prank] is left out. *)
Definition sample_draws {R : Type} `{Number R} {G : Type}
    (getrandbits : G -> nat * G) (random : G -> R * G) (g : G)
    (corpus : corpus_t) (damping_factor : R) (n : Z) : result (list page) :=
  '(page, g) <- choice getrandbits g (keys corpus) ;;
  '(_, draws, _) <-
    for_each (range n)
      (fun '(page, draws, g) i =>
         dist <- transition_model corpus page damping_factor ;;
         '(page, g) <- choices random g (keys dist) (values dist) ;;
         Ok (page, draws ++ [page], g))
      (page, [page], g) ;;
  Ok draws.

Lemma occurrences_app (k : page) (xs ys : list page) :
  inject_Z (occurrences k (xs ++ ys)) ==
  inject_Z (occurrences k xs) + inject_Z (occurrences k ys).
Proof.
  unfold occurrences. now rewrite count_occ_app, Nat2Z.inj_add, inject_Z_plus.
Qed.

Section Sampler.
Variable G : Type.
Variable getrandbits : G -> nat * G.
Variable random : G -> Q * G.
Variable corpus : corpus_t.
Variable d : Q.
Variable n : Z.

Hypothesis keys_distinct : NoDup (keys corpus).
Hypothesis closed :
  forall k links, getitem corpus k = Ok links ->
  forall l, In l links -> In l (keys corpus).
Hypothesis nonempty : corpus <> [].
Hypothesis d_lt_1 : d < 1.
Hypothesis n_nonzero : n <> 0%Z.

(** The increment [1/n] as the program computes it. *)
Definition share : Q := Qred (inject_Z 1 / inject_Z n).

Lemma share_correct : share == 1 / inject_Z n.
Proof. unfold share. now rewrite Qred_correct. Qed.

Lemma truediv_share : truediv (of_Z 1) (of_Z n) = Ok share.
Proof.
  qnum. apply truediv_Q. intros E. apply n_nonzero.
  apply inject_Z_injective. exact E.
Qed.

(** What the loop of the sampler maintains: [prank] has the keys of the
    corpus, every page drawn so far is one of them, and every value is
    the number of draws of its page times [1/n]. *)
Definition counted (prank : dict Q) (draws : list page) : Prop :=
  keys prank = keys corpus /\
  (forall p, In p draws -> In p (keys corpus)) /\
  Qsum (values prank) == inject_Z (len draws) * share /\
  forall web v, getitem prank web = Ok v ->
    v == inject_Z (occurrences web draws) * share.

(** [prank[page] += 1/n] *)
Lemma counted_step (prank : dict Q) (draws : list page) (p : page) :
  counted prank draws -> In p (keys corpus) ->
  exists prank',
    (old <- getitem prank p ;;
     q <- truediv (of_Z 1) (of_Z n) ;;
     Ok (setitem prank p (add old q))) = Ok prank' /\
    counted prank' (draws ++ [p]).
Proof.
  intros (K & D & S & V) Hp.
  destruct (bump_step share prank p) as (prank' & E & K' & S' & V');
    [now rewrite K|].
  exists prank'. split.
  - unfold bump in E. destruct (getitem prank p); [|discriminate].
    cbn [bind] in *. rewrite truediv_share. exact E.
  - split; [congruence|]. split; [|split].
    + intros p' Hp'. apply in_app_or in Hp' as [Hp'|[<-|[]]]; auto.
    + rewrite S', S. unfold len. rewrite length_app, Nat2Z.inj_add.
      cbn [List.length]. rewrite inject_Z_plus.
      change (inject_Z (Z.of_nat 1)) with 1. ring.
    + intros web v Ev.
      destruct (proj1 (getitem_In _ prank web)) as [v0 Ev0].
      { rewrite <- K'. apply getitem_In. eauto. }
      destruct (V' web v0 Ev0) as (v' & Ev' & Hv').
      replace v with v' by congruence.
      rewrite Hv', (V web v0 Ev0), occurrences_app. ring.
Qed.

(** One draw: from a page of the corpus the transition model yields a
    distribution, and [random.choices] a page of the corpus. *)
Lemma draw_total (g : G) (p : page) :
  In p (keys corpus) ->
  exists dist p' g',
    transition_model corpus p d = Ok dist /\
    choices random g (keys dist) (values dist) = Ok (p', g') /\
    In p' (keys corpus).
Proof.
  intros Hp. apply getitem_In in Hp as [links Hlinks].
  destruct (transition_model_spec corpus p d links keys_distinct nonempty
              Hlinks (closed p links Hlinks)) as (dist & E & K & S & _).
  destruct (choices_total G random g (keys dist) (values dist))
    as (p' & g' & Ec & Hp').
  - rewrite K. destruct corpus; [congruence | discriminate].
  - unfold keys, values. now rewrite !length_map.
  - rewrite S. destruct (is_empty links); lra.
  - exists dist, p', g'. rewrite <- K. auto.
Qed.

Lemma sample_loop (xs : list Z) :
  forall (p : page) (prank : dict Q) (draws : list page) (g : G),
  In p (keys corpus) -> counted prank draws ->
  exists p' prank' draws' g',
    for_each xs
      (fun '(page, prank, g) (i : Z) =>
         dist <- transition_model corpus page d ;;
         '(page, g) <- choices random g (keys dist) (values dist) ;;
         old <- getitem prank page ;;
         q <- truediv (of_Z 1) (of_Z n) ;;
         Ok (page, setitem prank page (add old q), g))
      (p, prank, g) = Ok (p', prank', g') /\
    for_each xs
      (fun '(page, draws, g) (i : Z) =>
         dist <- transition_model corpus page d ;;
         '(page, g) <- choices random g (keys dist) (values dist) ;;
         Ok (page, draws ++ [page], g))
      (p, draws, g) = Ok (p', draws', g') /\
    counted prank' draws' /\
    List.length draws' = (List.length draws + List.length xs)%nat.
Proof.
  induction xs as [|i xs IH]; intros p prank draws g Hp Hc.
  - exists p, prank, draws, g. cbn [for_each List.length].
    split; [reflexivity|]. split; [reflexivity|]. split; [assumption | lia].
  - destruct (draw_total g p Hp) as (dist & p1 & g1 & Et & Ec & Hp1).
    destruct (counted_step prank draws p1 Hc Hp1) as (prank1 & Ep & Hc1).
    destruct (IH p1 prank1 (draws ++ [p1]) g1 Hp1 Hc1)
      as (p' & prank' & draws' & g' & E1 & E2 & Hc' & Hlen).
    apply bind_ok in Ep as (old & Eold & Ep).
    apply bind_ok in Ep as (q & Eq & Ep). apply Ok_inj in Ep.
    exists p', prank', draws', g'.
    split; [|split; [|split; [assumption|]]].
    + erewrite for_each_cons; [exact E1|]. cbv beta iota.
      rewrite Et. cbn [bind]. rewrite Ec. cbn [bind].
      rewrite Eold. cbn [bind]. rewrite Eq. cbn [bind]. now rewrite Ep.
    + erewrite for_each_cons; [exact E2|]. cbv beta iota.
      rewrite Et. cbn [bind]. now rewrite Ec.
    + rewrite Hlen, length_app. cbn [List.length]. lia.
Qed.
Lemma counted_initial : counted (constant_dict (keys corpus) (inject_Z 0)) [].
Proof.
  split; [apply keys_constant_dict|]. split; [intros p []|]. split.
  - unfold constant_dict.
    rewrite (Qsum_constant (fun k => (k, inject_Z 0)) (inject_Z 0))
      by reflexivity.
    change (inject_Z (len (@nil page))) with 0. change (inject_Z 0) with 0.
    ring.
  - intros web v Ev. apply getitem_In_pair in Ev. unfold constant_dict in Ev.
    apply in_map_iff in Ev as (k & Ek & _). apply (f_equal snd) in Ek.
    cbn [snd] in Ek. subst v. unfold occurrences. cbn [count_occ Z.of_nat].
    change (inject_Z 0) with 0. ring.
Qed.

(** The sampler returns a mapping that counts its [n + 1] draws. *)
Lemma sample_pagerank_spec (g : G) :
  exists prank draws,
    sample_pagerank getrandbits random g corpus d n = Ok prank /\
    sample_draws getrandbits random g corpus d n = Ok draws /\
    counted prank draws /\
    List.length draws = S (Z.to_nat n).
Proof.
  destruct (choice_total G getrandbits g (keys corpus)) as (p0 & g0 & Ec & Hp0).
  { destruct corpus; [congruence | discriminate]. }
  destruct (counted_step _ [] p0 counted_initial Hp0) as (prank1 & Ep & Hc1).
  apply bind_ok in Ep as (old & Eold & Ep).
  apply bind_ok in Ep as (q & Eq & Ep). apply Ok_inj in Ep.
  destruct (sample_loop (range n) p0 prank1 [p0] g0 Hp0 Hc1)
    as (p' & prank' & draws' & g' & E1 & E2 & Hc' & Hlen).
  exists prank', draws'. split; [|split; [|split; [assumption|]]].
  - unfold sample_pagerank. unfold constant_dict in Eold, Ep.
    rewrite (fill_loop _ (inject_Z 0) (keys corpus)); [|reflexivity|assumption].
    cbn [bind app]. rewrite (bind_Ok _ _ _ Ec). cbv beta iota.
    rewrite (bind_Ok _ _ _ Eold), (bind_Ok _ _ _ Eq). cbv zeta.
    rewrite Ep, (bind_Ok _ _ _ E1). reflexivity.
  - unfold sample_draws. rewrite (bind_Ok _ _ _ Ec). cbv beta iota.
    rewrite (bind_Ok _ _ _ E2). reflexivity.
  - rewrite Hlen. unfold range. rewrite length_map, length_seq.
    cbn [List.length app]. lia.
Qed.
End Sampler.

(** The values that the sampler returns sum to [(n + 1) / n]: it draws
    [n + 1] pages and adds [1/n] for each. *)
Lemma sample_pagerank_sum (G : Type) (getrandbits : G -> nat * G)
    (random : G -> Q * G) (g : G) (corpus : corpus_t) (d : Q) (n : Z) :
  link_graph corpus = true -> corpus <> [] -> 0 < d -> d < 1 -> (1 <= n)%Z ->
  exists prank,
    sample_pagerank getrandbits random g corpus d n = Ok prank /\
    keys prank = keys corpus /\
    total (values prank) == (inject_Z n + 1) / inject_Z n.
Proof.
  intros Hg Hne Hd0 Hd1 Hn.
  destruct (sample_pagerank_spec G getrandbits random corpus d n
              (link_graph_keys _ Hg) (fun k links => link_graph_closed _ k links Hg)
              Hne Hd1 ltac:(lia) g)
    as (prank & draws & E & _ & (K & _ & S & _) & Hlen).
  exists prank. split; [assumption|]. split; [assumption|].
  rewrite total_Qsum, S, share_correct. unfold len. rewrite Hlen.
  rewrite Nat2Z.inj_succ, Z2Nat.id, <- Z.add_1_r, inject_Z_plus by lia.
  change (inject_Z 1) with 1. field.
  intros E0. apply (inject_Z_injective n 0) in E0. lia.
Qed.

(** C3 (defect of the code): with the constants of the program, 0.85 and
    10000 samples, and whatever the generator draws, the values that
    [sample_pagerank] returns for the example corpus sum to
    [10001/10000], not to one: the loop draws [n] pages after the first
    draw and every draw weighs [1/n]. *)
Theorem sample_pagerank_sum_off_by_one :
  forall (G : Type) (getrandbits : G -> nat * G) (random : G -> Q * G) (g : G),
  exists prank,
    sample_pagerank getrandbits random g example_corpus DAMPING SAMPLES =
      Ok prank /\
    keys prank = keys example_corpus /\
    total (values prank) == 10001 # 10000.
Proof.
  intros G getrandbits random g.
  destruct (sample_pagerank_sum G getrandbits random g example_corpus
              DAMPING SAMPLES) as (prank & E & K & S);
    [reflexivity | discriminate | reflexivity | reflexivity | discriminate |].
  exists prank. split; [assumption|]. split; [assumption|].
  rewrite S. reflexivity.
Qed.

(** C10: on a non-empty link graph, for a damping factor strictly between
    0 and 1 and [n >= 1], the sampler returns a mapping whose keys are the
    keys of the corpus, and the value of every page is [k/n], where [k]
    is the number of times the page was drawn. *)
Theorem sample_pagerank_counts (G : Type) (getrandbits : G -> nat * G)
    (random : G -> Q * G) (g : G) (corpus : corpus_t) (d : Q) (n : Z) :
  link_graph corpus = true -> corpus <> [] -> 0 < d -> d < 1 -> (1 <= n)%Z ->
  exists prank draws,
    sample_pagerank getrandbits random g corpus d n = Ok prank /\
    sample_draws getrandbits random g corpus d n = Ok draws /\
    keys prank = keys corpus /\
    forall web, In web (keys corpus) ->
      exists v, getitem prank web = Ok v /\
        (0 <= occurrences web draws)%Z /\
        v == inject_Z (occurrences web draws) / inject_Z n.
Proof.
  intros Hg Hne Hd0 Hd1 Hn.
  destruct (sample_pagerank_spec G getrandbits random corpus d n
              (link_graph_keys _ Hg) (fun k links => link_graph_closed _ k links Hg)
              Hne Hd1 ltac:(lia) g)
    as (prank & draws & E & Ed & (K & _ & _ & V) & _).
  exists prank, draws. repeat split; try assumption.
  intros web Hweb. rewrite <- K in Hweb.
  apply getitem_In in Hweb as [v Ev]. exists v.
  split; [assumption|]. split; [unfold occurrences; lia|].
  rewrite (V web v Ev), share_correct. field.
  intros E0. apply (inject_Z_injective n 0) in E0. lia.
Qed.

Lemma sample_pagerank_counts_witness :
  link_graph example_corpus = true /\ example_corpus <> [] /\
  0 < DAMPING /\ DAMPING < 1 /\ (1 <= 4)%Z /\
  exists prank draws,
    sample_pagerank counter_bits counter_random 0%nat example_corpus
      DAMPING 4 = Ok prank /\
    sample_draws counter_bits counter_random 0%nat example_corpus
      DAMPING 4 = Ok draws /\
    keys prank = keys example_corpus /\
    forall web, In web (keys example_corpus) ->
      exists v, getitem prank web = Ok v /\
        (0 <= occurrences web draws)%Z /\
        v == inject_Z (occurrences web draws) / inject_Z 4.
Proof.
  assert (H1 : link_graph example_corpus = true) by reflexivity.
  assert (H2 : example_corpus <> []) by discriminate.
  assert (H3 : 0 < DAMPING) by reflexivity.
  assert (H4 : DAMPING < 1) by reflexivity.
  assert (H5 : (1 <= 4)%Z) by lia.
  exact (conj H1 (conj H2 (conj H3 (conj H4 (conj H5
    (sample_pagerank_counts nat counter_bits counter_random 0%nat
       example_corpus DAMPING 4 H1 H2 H3 H4 H5)))))).
Defined.

(** ** The empty corpus *)

(** C5, as stated, fails: on the empty corpus the sampler raises
    [IndexError] and the iterative ranker returns the empty mapping;
    neither raises [InvalidCorpus]. *)
Lemma empty_corpus_not_InvalidCorpus :
  ~ (sample_pagerank counter_bits counter_random 0%nat [] DAMPING SAMPLES =
       Raise InvalidCorpus /\
     exists fuel,
       iterate_pagerank (R:=Q) fuel [] DAMPING = Some (Raise InvalidCorpus)).
Proof.
  intros [E _]. discriminate E.
Qed.

(** C5, amended: on the empty corpus, whatever the arithmetic, the
    generator, the damping factor and the number of samples, the sampler
    fails at once with the [IndexError] of [random.choice], before any
    division, and the iterative ranker returns the empty mapping after
    one pass of its loop, without an error. *)
Theorem empty_corpus_behaviour :
  forall (R : Type) (H : Number R) (G : Type) (getrandbits : G -> nat * G)
    (random : G -> R * G) (g : G) (d : R) (n : Z) (fuel : nat),
  sample_pagerank getrandbits random g [] d n = Raise IndexError /\
  initial_rank (R:=R) [] = Ok [] /\
  pass [] d [] = Ok ([], O) /\
  iterate_pagerank (S fuel) [] d = Some (Ok []).
Proof.
  intros. repeat split.
Qed.

(** ** The iterative ranker *)

Section Loop.
Context {R : Type} `{Number R}.

(** What the loop returns does not depend on [fuel], once [fuel] passes
    are enough. *)
Lemma while_check_fuel (corpus : corpus_t) (d : R) (fuel : nat) :
  forall (rank : dict R) (r : result (dict R)),
  while_check fuel corpus d rank = Some r ->
  forall fuel', (fuel <= fuel')%nat -> while_check fuel' corpus d rank = Some r.
Proof.
  induction fuel as [|fuel IH]; intros rank r E fuel' Hle; [discriminate|].
  destruct fuel' as [|fuel']; [lia|]. cbn [while_check] in *.
  destruct (pass corpus d rank) as [[rank' count]|e]; [|assumption].
  destruct (converged corpus count); [assumption|].
  apply IH; [assumption | lia].
Qed.

(** Two ranks that a pass maps to each other without convergence keep the
    loop running for ever. *)
Lemma while_check_cycle (corpus : corpus_t) (d : R) (rank1 rank2 : dict R)
    (count1 count2 : nat) :
  pass corpus d rank1 = Ok (rank2, count1) ->
  pass corpus d rank2 = Ok (rank1, count2) ->
  converged corpus count1 = false -> converged corpus count2 = false ->
  forall fuel,
    while_check fuel corpus d rank1 = None /\
    while_check fuel corpus d rank2 = None.
Proof.
  intros E1 E2 C1 C2. induction fuel as [|fuel [IH1 IH2]]; [now split|].
  cbn [while_check]. rewrite E1, E2, C1, C2. now split.
Qed.

(** The exceptions that a computation can raise. *)
Definition raises_only {A : Type} (P : exn -> Prop) (r : result A) : Prop :=
  forall e, r = Raise e -> P e.

Definition lookup_or_division (e : exn) : Prop :=
  e = KeyError \/ e = ZeroDivisionError.

Lemma raises_only_bind {A B : Type} (P : exn -> Prop) (m : result A)
    (k : A -> result B) :
  raises_only P m -> (forall a, raises_only P (k a)) ->
  raises_only P (bind m k).
Proof.
  intros Hm Hk. destruct m as [a|e]; cbn [bind]; [apply Hk|].
  intros e' E. apply Hm. congruence.
Qed.

Lemma raises_only_Ok {A : Type} (P : exn -> Prop) (a : A) :
  raises_only P (Ok a).
Proof. intros e E. discriminate. Qed.

Lemma raises_only_for_each {A S : Type} (P : exn -> Prop) (xs : list A)
    (body : S -> A -> result S) :
  (forall s x, raises_only P (body s x)) ->
  forall s, raises_only P (for_each xs body s).
Proof.
  intros Hb. induction xs as [|x xs IH]; intros s; cbn [for_each].
  - apply raises_only_Ok.
  - apply raises_only_bind; auto.
Qed.

Lemma raises_only_getitem {V : Type} (d : dict V) (k : page) :
  raises_only lookup_or_division (getitem d k).
Proof.
  induction d as [|[k' v] d IH]; cbn [getitem].
  - intros e E. left. congruence.
  - destruct (String.eqb k k'); [apply raises_only_Ok | assumption].
Qed.

Lemma raises_only_truediv (x y : R) :
  raises_only lookup_or_division (truediv x y).
Proof.
  unfold truediv. destruct (eqb y (of_Z 0)); [|apply raises_only_Ok].
  intros e E. right. congruence.
Qed.

Lemma raises_only_new_rank (corpus : corpus_t) (d : R) (rank : dict R)
    (web : page) :
  raises_only lookup_or_division (new_rank corpus d rank web).
Proof.
  unfold new_rank. apply raises_only_bind.
  - apply raises_only_for_each. intros sigma link.
    apply raises_only_bind; [apply raises_only_getitem|]. intros links.
    destruct (contains links web).
    + repeat (apply raises_only_bind;
              [apply raises_only_getitem || apply raises_only_truediv
              | intros ?]).
      apply raises_only_Ok.
    + apply raises_only_bind; [apply raises_only_getitem|]. intros links'.
      destruct (is_empty links'); [|apply raises_only_Ok].
      repeat (apply raises_only_bind;
              [apply raises_only_getitem || apply raises_only_truediv
              | intros ?]).
      apply raises_only_Ok.
  - intros sigma. apply raises_only_bind; [apply raises_only_truediv|].
    intros base. apply raises_only_Ok.
Qed.

Lemma raises_only_pass (corpus : corpus_t) (d : R) (rank : dict R) :
  raises_only lookup_or_division (pass corpus d rank).
Proof.
  unfold pass. apply raises_only_for_each. intros [rank0 count] web.
  apply raises_only_bind; [apply raises_only_new_rank|]. intros prob.
  apply raises_only_bind; [apply raises_only_getitem|]. intros old.
  apply raises_only_Ok.
Qed.

Lemma raises_only_while_check (corpus : corpus_t) (d : R) (fuel : nat) :
  forall (rank : dict R) (r : result (dict R)),
  while_check fuel corpus d rank = Some r -> raises_only lookup_or_division r.
Proof.
  induction fuel as [|fuel IH]; intros rank r E; [discriminate|].
  cbn [while_check] in E. pose proof (raises_only_pass corpus d rank) as Hp.
  destruct (pass corpus d rank) as [[rank' count]|e].
  - destruct (converged corpus count); [|eauto].
    injection E as <-. apply raises_only_Ok.
  - injection E as <-. intros e' E'. apply Hp. congruence.
Qed.

(** The test of line 171 on the page [web], between its rank before a
    pass and its rank after it: [abs(old - new) <= 0.001], in the
    arithmetic of the program. *)
Definition within_tolerance (rank rank' : dict R) (web : page) : Prop :=
  exists old new,
    getitem rank web = Ok old /\ getitem rank' web = Ok new /\
    leb (absolute (sub old new)) tolerance = true.

(** The count of a pass reaches the number of pages exactly when every
    page passes the test against its rank before the pass. *)
Lemma pass_loop (corpus : corpus_t) (d : R) (ks : list page) :
  NoDup ks ->
  forall (r r' : dict R) (c c' : nat),
  for_each ks
    (fun '(rank, count) web =>
       prob <- new_rank corpus d rank web ;;
       old <- getitem rank web ;;
       let count :=
         if leb (absolute (sub old prob)) tolerance then (count + 1)%nat
         else count in
       Ok (setitem rank web prob, count))
    (r, c) = Ok (r', c') ->
  (c <= c' <= c + List.length ks)%nat /\
  (forall web, ~ In web ks -> getitem r' web = getitem r web) /\
  (c' = (c + List.length ks)%nat <->
   forall web, In web ks -> within_tolerance r r' web).
Proof.
  induction 1 as [|k ks Hk Hnd IH]; intros r r' c c' E.
  - cbn [for_each] in E. apply Ok_inj in E.
    pose proof (f_equal fst E) as Er. pose proof (f_equal snd E) as Ec.
    cbn [fst snd] in Er, Ec. subst r' c'.
    cbn [List.length]. split; [lia|]. split; [reflexivity|].
    split; [intros _ web [] | lia].
  - cbn [for_each] in E. apply bind_ok in E as ([r1 c1] & Eb & E).
    apply bind_ok in Eb as (prob & Ep & Eb).
    apply bind_ok in Eb as (old & Eo & Eb).
    apply Ok_inj in Eb. cbv zeta in Eb.
    pose proof (f_equal fst Eb) as Er1. pose proof (f_equal snd Eb) as Ec1.
    cbn [fst snd] in Er1, Ec1. clear Eb.
    destruct (IH r1 r' c1 c' E) as (Hb & Hout & Hiff). clear IH E.
    assert (Ek' : getitem r' k = Ok prob).
    { rewrite (Hout k Hk), <- Er1. apply getitem_setitem_same. }
    assert (Hother : forall web, In web ks -> getitem r1 web = getitem r web).
    { intros web Hweb. rewrite <- Er1. apply getitem_setitem_other.
      intros ->. contradiction. }
    cbn [List.length]. split; [|split].
    + destruct (leb (absolute (sub old prob)) tolerance); lia.
    + intros web Hweb. rewrite Hout by (intros Hin; apply Hweb; now right).
      rewrite <- Er1. apply getitem_setitem_other.
      intros ->. apply Hweb. now left.
    + split.
      * intros Hc web [<-|Hweb].
        -- exists old, prob. split; [assumption|]. split; [assumption|].
           destruct (leb (absolute (sub old prob)) tolerance);
             [reflexivity | lia].
        -- destruct (proj1 Hiff) with (web := web)
             as (o & nw & Eo' & En' & Hd);
             [destruct (leb (absolute (sub old prob)) tolerance); lia
             | assumption|].
           exists o, nw. rewrite <- (Hother web Hweb). auto.
      * intros Hall.
        assert (Hc1 : c1 = (c + 1)%nat).
        { destruct (Hall k (or_introl eq_refl)) as (o & nw & Eo' & En' & Hd).
          replace o with old in Hd by congruence.
          replace nw with prob in Hd by congruence.
          rewrite Hd in Ec1. congruence. }
        assert (Hrest : c' = (c1 + List.length ks)%nat).
        { apply Hiff. intros web Hweb.
          destruct (Hall web (or_intror Hweb)) as (o & nw & Eo' & En' & Hd).
          exists o, nw. rewrite (Hother web Hweb). auto. }
        lia.
Qed.

(** The exit test [count >= len(corpus)] after a pass. *)
Lemma pass_converged_iff (corpus : corpus_t) (d : R) (rank rank' : dict R)
    (count : nat) :
  NoDup (keys corpus) -> pass corpus d rank = Ok (rank', count) ->
  (converged corpus count = true <->
   forall web, In web (keys corpus) -> within_tolerance rank rank' web).
Proof.
  intros Hnd E.
  destruct (pass_loop corpus d (keys corpus) Hnd rank rank' O count E)
    as (Hb & _ & Hiff).
  rewrite <- Hiff. unfold converged, len. rewrite Z.leb_le.
  unfold keys in Hb |- *. rewrite length_map in *. lia.
Qed.

(** A rank that the loop returns is the result of a pass whose count
    reached the number of pages. *)
Lemma while_check_exit (corpus : corpus_t) (d : R) (fuel : nat) :
  forall rank final : dict R,
  while_check fuel corpus d rank = Some (Ok final) ->
  exists prev count,
    pass corpus d prev = Ok (final, count) /\ converged corpus count = true.
Proof.
  induction fuel as [|fuel IH]; intros rank final E; [discriminate|].
  cbn [while_check] in E.
  destruct (pass corpus d rank) as [[rank' count]|e] eqn:Ep; [|discriminate].
  destruct (converged corpus count) eqn:Ec; [|eauto].
  assert (rank' = final) by congruence. subst rank'. eauto.
Qed.
End Loop.

(** A link graph of four pages: a cycle of three, listed against the
    direction of its links, and a page that links into it. *)
Definition cycle_corpus : corpus_t :=
  [("3.html", ["1.html"]); ("2.html", ["3.html"]); ("1.html", ["2.html"]);
   ("4.html", ["1.html"])].

(** The two ranks between which the passes on [cycle_corpus] alternate
    when the damping factor is one. *)
Definition cycle_rank {R : Type} `{Number R} (a b : R) : dict R :=
  [("3.html", a); ("2.html", b); ("1.html", a); ("4.html", of_Z 0)].

Lemma iterate_pagerank_cycle {R : Type} `{Number R} (r0 r1 : dict R)
    (a b : R) (c0 c1 c2 c3 : nat) :
  initial_rank cycle_corpus = Ok r0 ->
  pass cycle_corpus (of_Z 1) r0 = Ok (r1, c0) ->
  pass cycle_corpus (of_Z 1) r1 = Ok (cycle_rank a b, c1) ->
  pass cycle_corpus (of_Z 1) (cycle_rank a b) = Ok (cycle_rank b a, c2) ->
  pass cycle_corpus (of_Z 1) (cycle_rank b a) = Ok (cycle_rank a b, c3) ->
  converged cycle_corpus c0 = false -> converged cycle_corpus c1 = false ->
  converged cycle_corpus c2 = false -> converged cycle_corpus c3 = false ->
  forall fuel, iterate_pagerank fuel cycle_corpus (of_Z 1) = None.
Proof.
  intros E0 P0 P1 P2 P3 C0 C1 C2 C3 fuel. unfold iterate_pagerank.
  rewrite E0. destruct fuel as [|[|fuel]]; cbn [while_check];
    rewrite ?P0, ?C0, ?P1, ?C1; try reflexivity.
  apply (while_check_cycle cycle_corpus (of_Z 1) _ _ c2 c3 P2 P3 C2 C3).
Qed.

(** C7, as stated, fails: [cycle_corpus] is a link graph, and with the
    damping factor 1 no number of passes ends the loop of
    [iterate_pagerank], in exact arithmetic and in binary64 alike: the
    ranks of the cycle alternate between 1/4 and 1/2 for ever, and no
    error is raised. *)
Lemma iterate_pagerank_diverges :
  link_graph cycle_corpus = true /\
  ~ (exists fuel r, iterate_pagerank (R:=Q) fuel cycle_corpus 1 = Some r) /\
  ~ (exists fuel r,
       iterate_pagerank (R:=Binary64.t) fuel cycle_corpus (of_Z 1) = Some r).
Proof.
  split; [reflexivity|]. split; intros (fuel & r & E).
  - change (iterate_pagerank fuel cycle_corpus (of_Z 1) = Some r) in E.
    rewrite (iterate_pagerank_cycle (R:=Q)
               [("3.html", 1 # 4); ("2.html", 1 # 4); ("1.html", 1 # 4);
                ("4.html", 1 # 4)]
               [("3.html", 1 # 4); ("2.html", 1 # 4); ("1.html", 1 # 2);
                ("4.html", 0)]
               (1 # 4) (1 # 2) 2 2 1 1) in E;
      [discriminate | vm_compute; reflexivity ..].
  - rewrite (iterate_pagerank_cycle (R:=Binary64.t)
               [("3.html", decimal 25 2); ("2.html", decimal 25 2);
                ("1.html", decimal 25 2); ("4.html", decimal 25 2)]
               [("3.html", decimal 25 2); ("2.html", decimal 25 2);
                ("1.html", decimal 5 1); ("4.html", of_Z 0)]
               (decimal 25 2) (decimal 5 1) 2 2 1 1) in E;
      [discriminate | vm_compute; reflexivity ..].
Qed.

(** C7, amended: [iterate_pagerank] has no cap on its passes and no
    [ConvergenceError]: when some number of passes ends the loop, every
    larger number gives the same result; the only exceptions that can
    come out are those of a dictionary lookup or of a division; and a
    rank that is returned comes out of a pass whose count reached the
    number of pages, that is, on a corpus, a pass in which every page
    passed the test [abs(old - new) <= 0.001]. *)
Theorem iterate_pagerank_no_cap {R : Type} `{Number R} (fuel : nat)
    (corpus : corpus_t) (d : R) (r : result (dict R)) :
  iterate_pagerank fuel corpus d = Some r ->
  r <> Raise ConvergenceError /\
  raises_only lookup_or_division r /\
  (forall fuel', (fuel <= fuel')%nat ->
     iterate_pagerank fuel' corpus d = Some r) /\
  forall final, r = Ok final ->
    exists prev count,
      pass corpus d prev = Ok (final, count) /\
      converged corpus count = true /\
      (nodupb (keys corpus) = true ->
       forall web, In web (keys corpus) -> within_tolerance prev final web).
Proof.
  unfold iterate_pagerank. intros E.
  assert (Hr : raises_only lookup_or_division r).
  { destruct (initial_rank corpus) as [rank|e] eqn:Ei.
    - eapply raises_only_while_check; eassumption.
    - injection E as <-. intros e' E'. injection E' as <-.
      unfold initial_rank in Ei.
      eapply (raises_only_for_each lookup_or_division); [|exact Ei].
      intros rank web. apply raises_only_bind; [apply raises_only_truediv|].
      intros q. apply raises_only_Ok. }
  split; [|split; [assumption|split]].
  - intros ->. destruct (Hr ConvergenceError eq_refl); discriminate.
  - intros fuel' Hle. destruct (initial_rank corpus); [|assumption].
    eapply while_check_fuel; eassumption.
  - intros final ->. destruct (initial_rank corpus) as [rank|e];
      [|discriminate].
    destruct (while_check_exit corpus d fuel rank final E)
      as (prev & count & Ep & Ec).
    exists prev, count. split; [assumption|]. split; [assumption|].
    intros Hnd. apply nodupb_NoDup in Hnd.
    now apply (pass_converged_iff corpus d prev final count Hnd Ep).
Qed.

Lemma iterate_pagerank_no_cap_witness :
  exists r : result (dict Q),
    iterate_pagerank 13 example_corpus DAMPING = Some r /\
    r <> Raise ConvergenceError /\
    raises_only lookup_or_division r /\
    (forall fuel', (13 <= fuel')%nat ->
       iterate_pagerank fuel' example_corpus DAMPING = Some r) /\
    forall final, r = Ok final ->
      exists prev count,
        pass example_corpus DAMPING prev = Ok (final, count) /\
        converged example_corpus count = true /\
        (nodupb (keys example_corpus) = true ->
         forall web, In web (keys example_corpus) ->
           within_tolerance prev final web).
Proof.
  eexists. split; [vm_compute; reflexivity|].
  apply (iterate_pagerank_no_cap 13 example_corpus DAMPING).
  vm_compute. reflexivity.
Defined.

(** *** The passes of the loop, in exact arithmetic *)

(** In exact arithmetic the test of line 171 compares with [1/1000]. *)
Lemma tolerance_test (old prob : Q) :
  leb (absolute (sub old prob)) tolerance = true <->
  Qabs (old - prob) <= 1 # 1000.
Proof.
  unfold tolerance, decimal. qnum. rewrite Qle_bool_iff, !Qred_correct.
  reflexivity.
Qed.

Section Pass.
Variable corpus : corpus_t.
Variable d : Q.

Lemma new_rank_total (rank : dict Q) (web : page) :
  (forall k, In k (keys corpus) -> In k (keys rank)) ->
  In web (keys corpus) ->
  exists prob, new_rank corpus d rank web = Ok prob.
Proof.
  intros Hcover Hweb.
  assert (Hne : corpus <> []) by (intros ->; destruct Hweb).
  unfold new_rank.
  destruct (for_each_total (fun _ : Q => True) (keys corpus)
    (fun sigma link =>
       links <- getitem corpus link ;;
       if contains links web then
         r <- getitem rank link ;;
         links' <- getitem corpus link ;;
         q <- truediv r (of_Z (len links')) ;;
         Ok (add sigma q)
       else
         links' <- getitem corpus link ;;
         if is_empty links' then
           r <- getitem rank link ;;
           q <- truediv r (of_Z (len corpus)) ;;
           Ok (add sigma q)
         else Ok sigma)) with (s := of_Z (R:=Q) 0) as (sigma & E & _);
    [|exact I|].
  - intros sigma link Hlink _.
    destruct (proj1 (getitem_In _ corpus link) Hlink) as [links El].
    destruct (proj1 (getitem_In _ rank link) (Hcover link Hlink)) as [r Er].
    rewrite El. cbn [bind]. destruct (contains links web) eqn:Ec.
    + rewrite Er. cbn [bind]. qnum. rewrite truediv_Q; [cbn [bind]; eauto|].
      apply len_nonzero. intros ->. discriminate.
    + destruct (is_empty links); [|eauto].
      rewrite Er. cbn [bind]. qnum.
      rewrite (truediv_Q _ _ (len_nonzero corpus Hne)). cbn [bind]. eauto.
  - rewrite E. cbn [bind]. qnum.
    rewrite (truediv_Q _ _ (len_nonzero corpus Hne)). cbn [bind]. eauto.
Qed.

(** A pass on a rank that has the pages of the corpus returns, and its
    result has the same keys. *)
Lemma pass_total (rank : dict Q) :
  (forall k, In k (keys corpus) -> In k (keys rank)) ->
  exists rank' count,
    pass corpus d rank = Ok (rank', count) /\ keys rank' = keys rank.
Proof.
  intros Hcover. unfold pass.
  destruct (for_each_total
    (fun s : dict Q * nat => keys (fst s) = keys rank) (keys corpus)
    (fun '(rank, count) web =>
       prob <- new_rank corpus d rank web ;;
       old <- getitem rank web ;;
       let count :=
         if leb (absolute (sub old prob)) tolerance then (count + 1)%nat
         else count in
       Ok (setitem rank web prob, count))) with (s := (rank, O))
    as ([rank' count] & E & K); [|reflexivity|eauto].
  intros [r c] web Hweb Hr. cbn [fst] in Hr.
  destruct (new_rank_total r web) as [prob Ep];
    [intros k Hk; rewrite Hr; auto | assumption|].
  destruct (proj1 (getitem_In _ r web)) as [old Eo];
    [rewrite Hr; auto|].
  rewrite Ep. cbn [bind]. rewrite Eo. cbn [bind]. eexists. split; [reflexivity|].
  cbn [fst]. rewrite keys_setitem_In; [assumption|]. rewrite Hr. auto.
Qed.
End Pass.

(** The loop starts from a rank that has the keys of the corpus. *)
Lemma initial_rank_keys (corpus : corpus_t) :
  NoDup (keys corpus) ->
  exists rank : dict Q, initial_rank corpus = Ok rank /\ keys rank = keys corpus.
Proof.
  intros Hnd. destruct corpus as [|kv corpus'] eqn:Ec.
  - exists []. split; reflexivity.
  - rewrite <- Ec in *. assert (Hne : corpus <> []) by (subst; discriminate).
    exists (constant_dict (keys corpus)
              (Qred (inject_Z 1 / inject_Z (len corpus)))).
    split; [|apply keys_constant_dict].
    unfold initial_rank.
    apply (fill_loop _ (Qred (inject_Z 1 / inject_Z (len corpus))));
      [|assumption].
    intros r k. qnum. now rewrite (truediv_Q _ _ (len_nonzero corpus Hne)).
Qed.

(** C6: in every arithmetic, after a pass of the loop on a corpus, the
    exit test [count >= len(corpus)] holds exactly when every page passed
    the test [abs(old - new) <= 0.001] of line 171 against the rank it had
    when the pass started; the loop then returns the new rank, and goes
    on to the next pass otherwise. *)
Theorem pass_exit_iff {R : Type} `{Number R} (corpus : corpus_t) (d : R)
    (rank rank' : dict R) (count : nat) :
  nodupb (keys corpus) = true ->
  pass corpus d rank = Ok (rank', count) ->
  (converged corpus count = true <->
   forall web, In web (keys corpus) -> within_tolerance rank rank' web) /\
  forall fuel,
    while_check (S fuel) corpus d rank =
    if converged corpus count then Some (Ok rank')
    else while_check fuel corpus d rank'.
Proof.
  intros Hnd E. apply nodupb_NoDup in Hnd. split.
  - now apply (pass_converged_iff corpus d rank rank' count).
  - intros fuel. cbn [while_check]. now rewrite E.
Qed.

Definition one_third : dict Q :=
  [("1.html", 1 # 3); ("2.html", 1 # 3); ("3.html", 1 # 3)].

(** The rank from which the loop starts on the example corpus, in
    binary64. *)
Definition one_third_binary64 : dict Binary64.t :=
  [("1.html", quot (of_Z 1) (of_Z 3)); ("2.html", quot (of_Z 1) (of_Z 3));
   ("3.html", quot (of_Z 1) (of_Z 3))].

Lemma pass_exit_iff_witness :
  nodupb (keys example_corpus) = true /\
  exists rank' count,
    pass example_corpus DAMPING one_third_binary64 = Ok (rank', count) /\
    (converged example_corpus count = true <->
     forall web, In web (keys example_corpus) ->
       within_tolerance one_third_binary64 rank' web) /\
    forall fuel,
      while_check (S fuel) example_corpus DAMPING one_third_binary64 =
      if converged example_corpus count then Some (Ok rank')
      else while_check fuel example_corpus DAMPING rank'.
Proof.
  assert (H1 : nodupb (keys example_corpus) = true) by reflexivity.
  split; [exact H1|]. eexists. eexists.
  split; [vm_compute; reflexivity|].
  apply (pass_exit_iff example_corpus DAMPING one_third_binary64);
    [exact H1 | vm_compute; reflexivity].
Defined.

(** C4 (defect of the code): [rank] is updated in place while the pass
    runs.  On the example corpus, from the initial rank 1/3 of every page
    and with damping 0.85, the pass sets ["1.html"] to 1/20 and then
    computes ["2.html"] from that new value: it gets 851/2400 where the
    snapshot taken before the pass gives 19/40. *)
Theorem pass_mixes_old_and_new :
  initial_rank example_corpus = Ok one_third /\
  pass example_corpus DAMPING one_third =
    Ok ([("1.html", 1 # 20); ("2.html", 851 # 2400);
         ("3.html", 17887 # 48000)], O) /\
  snapshot_pass example_corpus DAMPING one_third =
    Ok [("1.html", 1 # 20); ("2.html", 19 # 40); ("3.html", 19 # 40)] /\
  new_rank example_corpus DAMPING one_third "2.html" = Ok (19 # 40) /\
  new_rank example_corpus DAMPING (setitem one_third "1.html" (1 # 20)) "2.html" =
    Ok (851 # 2400) /\
  ~ (851 # 2400 == 19 # 40).
Proof.
  repeat split; try (vm_compute; reflexivity). discriminate.
Qed.

(** * The rest of the program *)

(** ** The graph builder *)

(** [set(xs)]: the elements of [xs] without repetition, in the order of
    their first occurrence. *)
Fixpoint to_set (xs : list page) : list page :=
  match xs with
  | [] => []
  | x :: xs' => x :: filter (fun y => negb (String.eqb y x)) (to_set xs')
  end.

(** [s - t] for sets. *)
Definition difference (s t : list page) : list page :=
  filter (fun x => negb (contains t x)) s.

(** [s.endswith(suffix)] *)
Definition endswith (s suffix : string) : bool :=
  (String.length suffix <=? String.length s)%nat &&
  String.eqb
    (substring (String.length s - String.length suffix)
       (String.length suffix) s)
    suffix.

Section Crawl.
(** [re.findall] with the pattern of line 38: the targets of the links of
    an HTML text. *)
Variable findall : string -> list string.

(** [crawl(directory)].  The directory is given by its listing, the names
    of [os.listdir] in order, each with the contents that reading the file
    yields.  A directory with an entry ending in [".html"] that cannot be
    opened or read, on which the source raises, has no such listing. *)
Definition crawl (directory : list (string * string)) : result corpus_t :=
  pages <- for_each directory
             (fun pages '(filename, contents) =>
                if negb (endswith filename ".html") then Ok pages
                else
                  let links := findall contents in
                  Ok (setitem pages filename
                        (difference (to_set links) [filename])))
             [] ;;
  for_each (keys pages)
    (fun pages filename =>
       links <- getitem pages filename ;;
       Ok (setitem pages filename
             (to_set (filter (contains (keys pages)) links))))
    pages.
End Crawl.

Definition example_findall (contents : string) : list string :=
  if String.eqb contents "one" then ["2.html"; "3.html"; "1.html"; "2.html"]
  else if String.eqb contents "two" then ["3.html"; "missing.html"]
  else ["2.html"; "notes.txt"].

Definition example_directory : list (string * string) :=
  [("1.html", "one"); ("notes.txt", "one"); ("2.html", "two");
   ("3.html", "three")].


Lemma to_set_In (xs : list page) (x : page) : In x (to_set xs) <-> In x xs.
Proof.
  induction xs as [|y xs IH]; cbn [to_set In]; [reflexivity|].
  rewrite filter_In, IH, negb_true_iff, String.eqb_neq.
  destruct (string_dec y x) as [->|Hne]; [tauto|].
  split; [tauto|]. intros [?|?]; [tauto|]. right.
  split; [assumption | intros ->; now apply Hne].
Qed.

Lemma to_set_NoDup (xs : list page) : NoDup (to_set xs).
Proof.
  induction xs as [|y xs IH]; cbn [to_set]; constructor.
  - rewrite filter_In, String.eqb_refl. cbn. intros [_ ?]. discriminate.
  - now apply NoDup_filter.
Qed.

(** A list without repetition is its own set. *)
Lemma to_set_NoDup_id (xs : list page) : NoDup xs -> to_set xs = xs.
Proof.
  induction 1 as [|y xs Hy Hnd IH]; cbn [to_set]; [reflexivity|].
  rewrite IH. f_equal. apply forallb_filter_id, forallb_forall.
  intros z Hz. apply negb_true_iff, String.eqb_neq. intros ->. contradiction.
Qed.

Lemma difference_In (s t : list page) (x : page) :
  In x (difference s t) <-> In x s /\ ~ In x t.
Proof.
  unfold difference. now rewrite filter_In, negb_true_iff, contains_not_In.
Qed.

Lemma keys_setitem_NoDup {V : Type} (d : dict V) (k : page) (v : V) :
  NoDup (keys d) -> NoDup (keys (setitem d k v)).
Proof.
  intros Hnd. destruct (in_dec string_dec k (keys d)) as [Hin|Hout].
  - now rewrite keys_setitem_In.
  - rewrite setitem_fresh by assumption. unfold keys in *.
    rewrite map_app. cbn [map fst]. apply NoDup_app; repeat split.
    + assumption.
    + constructor; [intros [] | constructor].
    + intros x Hx [<-|[]]. contradiction.
Qed.

(** On a dictionary, [d[k] = f(d[k])] changes the entry of [k] alone. *)
Lemma setitem_map {V : Type} (f : V -> V) (d : dict V) (k : page) (v : V) :
  NoDup (keys d) -> getitem d k = Ok v ->
  setitem d k (f v) =
  map (fun kv => if String.eqb (fst kv) k then (fst kv, f (snd kv)) else kv) d.
Proof.
  induction d as [|[k0 v0] d IH]; cbn [getitem setitem map fst snd keys];
    [discriminate|].
  intros Hnd E. inversion Hnd as [|? ? Hk0 Hd]; subst.
  rewrite (String.eqb_sym k0 k).
  destruct (String.eqb_spec k k0) as [->|Hne].
  - apply Ok_inj in E. subst v0. f_equal.
    rewrite <- (map_id d) at 1. apply map_ext_in. intros [k1 v1] Hin.
    cbn [fst snd]. destruct (String.eqb_spec k1 k0) as [->|]; [|reflexivity].
    exfalso. apply Hk0. change k0 with (fst (k0, v1)). now apply in_map.
  - f_equal. now apply IH.
Qed.

Section CrawlProperties.
Variable findall : string -> list string.

(** What the first loop of [crawl] keeps: distinct keys, and for every
    page a set of links that does not contain the page. *)
Definition raw_pages (pages : corpus_t) : Prop :=
  NoDup (keys pages) /\
  forall k v, In (k, v) pages -> NoDup v /\ ~ In k v.

Lemma first_loop_raw (directory : list (string * string)) :
  exists pages,
    for_each directory
      (fun pages '(filename, contents) =>
         if negb (endswith filename ".html") then Ok pages
         else
           let links := findall contents in
           Ok (setitem pages filename
                 (difference (to_set links) [filename])))
      [] = Ok pages /\
    raw_pages pages /\
    forall k, In k (keys pages) <->
      In k (map fst directory) /\ endswith k ".html" = true.
Proof.
  pose (P := fun (seen : list (string * string)) (pages : corpus_t) =>
    raw_pages pages /\
    forall k, In k (keys pages) <->
      In k (map fst seen) /\ endswith k ".html" = true).
  assert (G : forall todo seen pages, P seen pages ->
    exists pages',
      for_each todo
        (fun pages '(filename, contents) =>
           if negb (endswith filename ".html") then Ok pages
           else
             let links := findall contents in
             Ok (setitem pages filename
                   (difference (to_set links) [filename])))
        pages = Ok pages' /\ P (seen ++ todo) pages').
  { induction todo as [|[filename contents] todo IH]; intros seen pages HP.
    - exists pages. rewrite app_nil_r. now split.
    - cbn [for_each]. replace (seen ++ (filename, contents) :: todo)
        with ((seen ++ [(filename, contents)]) ++ todo)
        by (now rewrite <- app_assoc).
      destruct HP as ((Hnd & Hv) & Hk).
      destruct (endswith filename ".html") eqn:Eh; cbn [negb bind].
      + apply IH. split; [split|].
        * now apply keys_setitem_NoDup.
        * intros k v Hin. apply In_setitem in Hin as [Hin|[-> ->]]; [eauto|].
          split.
          -- apply NoDup_filter, to_set_NoDup.
          -- rewrite difference_In. intros [_ Hn]. apply Hn. now left.
        * intros k. rewrite map_app, in_app_iff. cbn [map fst In].
          destruct (in_dec string_dec filename (keys pages)) as [Hin|Hout].
          -- rewrite keys_setitem_In by assumption. rewrite Hk.
             apply Hk in Hin. split; [tauto|].
             intros [[?|[<-|[]]] ?]; tauto.
          -- rewrite setitem_fresh by assumption. unfold keys at 1.
             rewrite map_app, in_app_iff. fold (keys pages). rewrite Hk.
             cbn [map fst In]. split; [|tauto].
             intros [?|[<-|[]]]; tauto.
      + apply IH. split; [now split|]. intros k. rewrite Hk, map_app, in_app_iff.
        cbn [map fst In]. split; [tauto|].
        intros [[?|[<-|[]]] ?]; [tauto | congruence]. }
  destruct (G directory [] []) as (pages & E & HP & Hk).
  - split; [split; [constructor | intros k v []]|].
    intros k. cbn. tauto.
  - exists pages. split; [assumption|]. split; [assumption | exact Hk].
Qed.

(** The second loop of [crawl] keeps, in every set, the links that are
    keys. *)
Definition prune (pages : corpus_t) : corpus_t :=
  map (fun kv =>
         (fst kv, to_set (filter (contains (keys pages)) (snd kv))))
    pages.

Lemma keys_prune (pages : corpus_t) : keys (prune pages) = keys pages.
Proof. unfold prune, keys. rewrite map_map. now apply map_ext. Qed.

Lemma second_loop (K ks : list page) :
  NoDup ks ->
  forall pages : corpus_t,
  keys pages = K -> NoDup K -> (forall k, In k ks -> In k K) ->
  for_each ks
    (fun pages filename =>
       links <- getitem pages filename ;;
       Ok (setitem pages filename
             (to_set (filter (contains (keys pages)) links))))
    pages =
  Ok (map (fun kv =>
             if contains ks (fst kv)
             then (fst kv, to_set (filter (contains K) (snd kv)))
             else kv)
        pages).
Proof.
  induction 1 as [|k ks Hk Hnd IH]; intros pages HK HndK Hsub.
  - cbn [for_each contains existsb]. now rewrite map_id.
  - cbn [for_each].
    destruct (proj1 (getitem_In _ pages k)) as [v Ev];
      [rewrite HK; apply Hsub; now left|].
    rewrite Ev. cbn [bind]. rewrite HK.
    rewrite (setitem_map (fun v => to_set (filter (contains K) v)))
      by (rewrite ?HK; assumption).
    rewrite IH.
    + f_equal. rewrite map_map. apply map_ext. intros [k1 v1]. cbn [fst snd].
      destruct (String.eqb_spec k1 k) as [->|Hne]; cbn [fst snd].
      * rewrite (proj2 (contains_not_In ks k) Hk).
        now rewrite (proj2 (contains_In (k :: ks) k) (or_introl eq_refl)).
      * unfold contains. cbn [existsb].
        now rewrite (proj2 (String.eqb_neq k1 k) Hne).
    + unfold keys. rewrite map_map. rewrite <- HK. unfold keys.
      apply map_ext. intros [k1 v1]. cbn [fst].
      now destruct (String.eqb k1 k).
    + assumption.
    + intros k' Hk'. apply Hsub. now right.
Qed.

(** [crawl] never fails: it returns the pruned result of its first
    loop. *)
Lemma crawl_prune (directory : list (string * string)) :
  exists pages,
    crawl findall directory = Ok (prune pages) /\
    raw_pages pages /\
    forall k, In k (keys pages) <->
      In k (map fst directory) /\ endswith k ".html" = true.
Proof.
  destruct (first_loop_raw directory) as (pages & E & Hraw & Hk).
  exists pages. split; [|now split].
  unfold crawl. rewrite (bind_Ok _ _ _ E).
  rewrite (second_loop (keys pages) (keys pages) (proj1 Hraw) pages eq_refl
             (proj1 Hraw) (fun k H => H)).
  apply (f_equal Ok). unfold prune. apply map_ext_in. intros [k v] Hin. cbn [fst snd].
  assert (Hc : contains (keys pages) k = true).
  { apply contains_In. change k with (fst (k, v)). now apply in_map. }
  now rewrite Hc.
Qed.
End CrawlProperties.

Lemma getitem_not_In {V : Type} (d : dict V) (k : page) :
  ~ In k (keys d) -> getitem d k = Raise KeyError.
Proof.
  intros Hk. destruct (getitem d k) as [v|e] eqn:E.
  - exfalso. apply Hk, getitem_In. eauto.
  - revert E. induction d as [|[k' v'] d IH]; cbn [getitem]; [congruence|].
    destruct (String.eqb k k'); [discriminate|]. apply IH.
    intros Hin. apply Hk. now right.
Qed.

Lemma getitem_map {V W : Type} (f : page -> V -> W) (d : dict V) (k : page) :
  getitem (map (fun kv => (fst kv, f (fst kv) (snd kv))) d) k =
  (v <- getitem d k ;; Ok (f k v)).
Proof.
  induction d as [|[k' v'] d IH]; cbn [map getitem fst snd bind]; [reflexivity|].
  destruct (String.eqb_spec k k') as [->|Hne]; [reflexivity | exact IH].
Qed.

(** Pruning the result of the first loop gives a link graph. *)
Lemma prune_link_graph (pages : corpus_t) :
  NoDup (keys pages) ->
  (forall k v, In (k, v) pages -> NoDup v /\ ~ In k v) ->
  link_graph (prune pages) = true.
Proof.
  intros Hnd Hv.
  unfold link_graph, well_formed, links_closed, no_self_link.
  rewrite !andb_true_iff, !forallb_forall. repeat split.
  - apply nodupb_NoDup. now rewrite keys_prune.
  - intros v Hin. unfold values, prune in Hin. rewrite map_map in Hin.
    apply in_map_iff in Hin as (kv & <- & _). cbn [snd].
    apply nodupb_NoDup, to_set_NoDup.
  - intros kv Hin. apply forallb_forall. intros l Hl.
    unfold prune in Hin. apply in_map_iff in Hin as (kv0 & <- & _).
    cbn [snd] in Hl. apply to_set_In, filter_In in Hl as [_ Hl].
    now rewrite keys_prune.
  - intros kv Hin. apply negb_true_iff, contains_not_In.
    unfold prune in Hin. apply in_map_iff in Hin as ([k v] & <- & Hin).
    cbn [fst snd]. rewrite to_set_In, filter_In. intros [Hk _].
    now apply (Hv k v Hin).
Qed.

(** X1: a corpus that [crawl] returns is a link graph, whatever links
    the pattern finds in the files: distinct pages, sets of links without
    repetition, every link a page of the corpus, no page linking to
    itself. *)
Theorem crawl_link_graph (findall : string -> list string)
    (directory : list (string * string)) (corpus : corpus_t) :
  crawl findall directory = Ok corpus -> link_graph corpus = true.
Proof.
  intros Ec.
  destruct (crawl_prune findall directory) as (pages & E & (Hnd & Hv) & _).
  assert (corpus = prune pages) by congruence. subst corpus.
  now apply prune_link_graph.
Qed.

Lemma crawl_link_graph_witness :
  crawl example_findall example_directory = Ok example_corpus /\
  link_graph example_corpus = true.
Proof.
  assert (H1 : crawl example_findall example_directory = Ok example_corpus)
    by reflexivity.
  exact (conj H1
    (crawl_link_graph example_findall example_directory example_corpus H1)).
Defined.

(** X2: the pages of the corpus that [crawl] returns are the names of the
    listing that end in [".html"], each once; a file with another name is
    neither a page nor the target of a link. *)
Theorem crawl_pages :
  forall (findall : string -> list string)
    (directory : list (string * string)),
  exists corpus,
    crawl findall directory = Ok corpus /\
    NoDup (keys corpus) /\
    (forall k, In k (keys corpus) <->
       In k (map fst directory) /\ endswith k ".html" = true) /\
    forall k links l, In (k, links) corpus -> In l links ->
      In l (map fst directory) /\ endswith l ".html" = true.
Proof.
  intros findall directory.
  destruct (crawl_prune findall directory) as (pages & E & (Hnd & Hv) & Hk).
  exists (prune pages). rewrite keys_prune.
  split; [assumption|]. split; [assumption|]. split; [exact Hk|].
  intros k links l Hin Hl. apply Hk.
  unfold prune in Hin. apply in_map_iff in Hin as (kv & Ekv & _).
  apply (f_equal snd) in Ekv. cbn [snd] in Ekv. subst links.
  apply to_set_In, filter_In in Hl as [_ Hl]. now apply contains_In.
Qed.

(** In a listing of distinct names, the first loop of [crawl] gives every
    page the links found in its own file, itself excluded. *)
Lemma first_loop_getitem (findall : string -> list string)
    (todo : list (string * string)) :
  NoDup (map fst todo) ->
  forall pages pages' : corpus_t,
  for_each todo
    (fun pages '(filename, contents) =>
       if negb (endswith filename ".html") then Ok pages
       else
         let links := findall contents in
         Ok (setitem pages filename
               (difference (to_set links) [filename])))
    pages = Ok pages' ->
  (forall filename contents,
     In (filename, contents) todo -> endswith filename ".html" = true ->
     getitem pages' filename =
       Ok (difference (to_set (findall contents)) [filename])) /\
  (forall k, ~ In k (map fst todo) -> getitem pages' k = getitem pages k).
Proof.
  induction todo as [|[fn0 c0] todo IH]; cbn [map fst for_each];
    intros Hnd pages pages' E.
  - apply Ok_inj in E. subst pages'. split; [intros ? ? [] | reflexivity].
  - inversion Hnd as [|? ? Hfn0 Hnd']; subst.
    apply bind_ok in E as (pages1 & E1 & E).
    destruct (IH Hnd' pages1 pages' E) as (Hin & Hout). clear IH E.
    assert (Hother : forall k, k <> fn0 -> getitem pages1 k = getitem pages k).
    { intros k Hk. destruct (endswith fn0 ".html"); cbn [negb] in E1;
        apply Ok_inj in E1; subst pages1; [|reflexivity].
      now apply getitem_setitem_other. }
    split.
    + intros filename contents [Eq|Hin'] Hhtml.
      * injection Eq as -> ->. rewrite (Hout filename Hfn0).
        rewrite Hhtml in E1. cbn [negb] in E1. apply Ok_inj in E1.
        subst pages1. apply getitem_setitem_same.
      * now apply Hin.
    + intros k Hk. rewrite Hout by (intros ?; apply Hk; now right).
      apply Hother. intros ->. apply Hk. now left.
Qed.

Lemma crawl_first_loop (findall : string -> list string)
    (directory : list (string * string)) (pages : corpus_t) :
  for_each directory
    (fun pages '(filename, contents) =>
       if negb (endswith filename ".html") then Ok pages
       else
         let links := findall contents in
         Ok (setitem pages filename
               (difference (to_set links) [filename])))
    [] = Ok pages ->
  NoDup (keys pages) ->
  crawl findall directory = Ok (prune pages).
Proof.
  intros E Hnd. unfold crawl. rewrite (bind_Ok _ _ _ E).
  rewrite (second_loop (keys pages) (keys pages) Hnd pages eq_refl Hnd
             (fun k H => H)).
  apply (f_equal Ok). unfold prune. apply map_ext_in.
  intros [k v] Hin. cbn [fst snd].
  assert (Hc : contains (keys pages) k = true).
  { apply contains_In. change k with (fst (k, v)). now apply in_map. }
  now rewrite Hc.
Qed.

(** X3: in a directory (a listing of distinct names), the page
    [filename] of the corpus that [crawl] returns links to [l] exactly
    when the pattern finds [l] in the file, [l] is not [filename] itself,
    and [l] is a page of the corpus. *)
Theorem crawl_links (findall : string -> list string)
    (directory : list (string * string)) (filename contents : string) :
  NoDup (map fst directory) ->
  In (filename, contents) directory -> endswith filename ".html" = true ->
  exists corpus links,
    crawl findall directory = Ok corpus /\
    getitem corpus filename = Ok links /\
    forall l, In l links <->
      In l (findall contents) /\ l <> filename /\ In l (keys corpus).
Proof.
  intros Hnd Hin Hhtml.
  destruct (first_loop_raw findall directory) as (pages & E1 & Hraw & Hk).
  destruct (first_loop_getitem findall directory Hnd [] pages E1)
    as (Hget & _).
  specialize (Hget filename contents Hin Hhtml).
  exists (prune pages). eexists.
  split; [apply crawl_first_loop; [exact E1 | apply Hraw]|]. split.
  - unfold prune.
    rewrite (getitem_map
               (fun _ v => to_set (filter (contains (keys pages)) v))).
    rewrite Hget. reflexivity.
  - intros l. rewrite keys_prune, to_set_In, filter_In, difference_In.
    rewrite to_set_In, contains_In. cbn [In]. split.
    + intros ((Hf & Hn) & Hc). split; [assumption|]. split; [|assumption].
      intros ->. apply Hn. now left.
    + intros (Hf & Hn & Hc). split; [split; [assumption|] | assumption].
      intros [<-|[]]. now apply Hn.
Qed.

Lemma crawl_links_witness :
  NoDup (map fst example_directory) /\
  In ("1.html", "one") example_directory /\
  endswith "1.html" ".html" = true /\
  exists corpus links,
    crawl example_findall example_directory = Ok corpus /\
    getitem corpus "1.html" = Ok links /\
    forall l, In l links <->
      In l (example_findall "one") /\ l <> "1.html" /\ In l (keys corpus).
Proof.
  assert (H1 : NoDup (map fst example_directory))
    by (apply nodupb_NoDup; reflexivity).
  assert (H2 : In ("1.html", "one") example_directory) by (now left).
  assert (H3 : endswith "1.html" ".html" = true) by reflexivity.
  exact (conj H1 (conj H2 (conj H3
    (crawl_links example_findall example_directory "1.html" "one"
       H1 H2 H3)))).
Defined.

(** X4: the first steps of [main], in exact arithmetic.  Let [corpus] be
    what [crawl] returns.  When some name of the directory ends in
    [".html"], sampling [corpus] succeeds, for every generator, damping
    factor strictly between 0 and 1 and [n >= 1], and ranks exactly those
    names; when none does, [corpus] is empty and [sample_pagerank] raises
    [IndexError]. *)
Theorem crawl_sample_pagerank (findall : string -> list string)
    (directory : list (string * string)) (corpus : corpus_t) (G : Type)
    (getrandbits : G -> nat * G) (random : G -> Q * G) (g : G) (d : Q)
    (n : Z) :
  crawl findall directory = Ok corpus -> 0 < d -> d < 1 -> (1 <= n)%Z ->
  ((exists k, In k (map fst directory) /\ endswith k ".html" = true) ->
   exists prank,
     sample_pagerank getrandbits random g corpus d n = Ok prank /\
     forall k, In k (keys prank) <->
       In k (map fst directory) /\ endswith k ".html" = true) /\
  ((forall k, In k (map fst directory) -> endswith k ".html" = false) ->
   corpus = [] /\
   sample_pagerank getrandbits random g corpus d n = Raise IndexError).
Proof.
  intros Ecrawl _ Hd Hn.
  destruct (crawl_prune findall directory) as (pages & E & (Hnd & Hv) & Hk).
  assert (corpus = prune pages) by congruence. subst corpus.
  pose proof (prune_link_graph pages Hnd Hv) as Hg.
  split.
  - intros (k & Hin & Hhtml).
    assert (Hne : prune pages <> []).
    { intros E0. assert (Hkk : In k (keys pages)) by (apply Hk; auto).
      rewrite <- keys_prune, E0 in Hkk. destruct Hkk. }
    destruct (sample_pagerank_spec G getrandbits random (prune pages) d n
                (link_graph_keys _ Hg)
                (fun k links => link_graph_closed _ k links Hg)
                Hne Hd ltac:(lia) g)
      as (prank & draws & Es & _ & (K & _) & _).
    exists prank. split; [assumption|]. intros k'.
    now rewrite K, keys_prune.
  - intros Hnone.
    assert (E0 : pages = []).
    { destruct pages as [|[k v] pages']; [reflexivity|]. exfalso.
      destruct (proj1 (Hk k) (or_introl eq_refl)) as [Hin Hhtml].
      rewrite (Hnone k Hin) in Hhtml. discriminate. }
    subst pages. split; reflexivity.
Qed.

Lemma crawl_sample_pagerank_witness :
  crawl example_findall example_directory = Ok example_corpus /\
  0 < DAMPING /\ DAMPING < 1 /\ (1 <= SAMPLES)%Z /\
  ((exists k, In k (map fst example_directory) /\
              endswith k ".html" = true) ->
   exists prank,
     sample_pagerank counter_bits counter_random 0%nat example_corpus
       DAMPING SAMPLES = Ok prank /\
     forall k, In k (keys prank) <->
       In k (map fst example_directory) /\ endswith k ".html" = true) /\
  ((forall k, In k (map fst example_directory) ->
              endswith k ".html" = false) ->
   example_corpus = [] /\
   sample_pagerank counter_bits counter_random 0%nat example_corpus DAMPING
     SAMPLES = Raise IndexError).
Proof.
  assert (H0 : crawl example_findall example_directory = Ok example_corpus)
    by reflexivity.
  assert (H1 : 0 < DAMPING) by reflexivity.
  assert (H2 : DAMPING < 1) by reflexivity.
  assert (H3 : (1 <= SAMPLES)%Z) by (unfold SAMPLES; lia).
  exact (conj H0 (conj H1 (conj H2 (conj H3
    (crawl_sample_pagerank example_findall example_directory example_corpus
       nat counter_bits counter_random 0%nat DAMPING SAMPLES
       H0 H1 H2 H3))))).
Defined.

(** ** More on the transition model *)

Lemma first_loop_returns (corpus : corpus_t) (d : Q) :
  exists prob : dict Q,
    for_each (keys corpus)
      (fun prob web =>
         q <- truediv (sub (of_Z 1) d) (of_Z (len corpus)) ;;
         Ok (setitem prob web q)) [] = Ok prob.
Proof.
  destruct corpus as [|kv corpus'] eqn:Ec; [exists []; reflexivity|].
  rewrite <- Ec. assert (Hne : corpus <> []) by (subst; discriminate).
  destruct (for_each_total (fun _ : dict Q => True) (keys corpus)
    (fun prob web =>
       q <- truediv (sub (of_Z 1) d) (of_Z (len corpus)) ;;
       Ok (setitem prob web q))) with (s := @nil (page * Q))
    as (prob & E & _); [|exact I|eauto].
  intros prob web _ _. qnum.
  rewrite (truediv_Q _ _ (len_nonzero corpus Hne)). cbn [bind]. eauto.
Qed.

(** X5: [transition_model] does not check its argument [page]: for a page
    that is not a key of the corpus it raises [KeyError], whatever the
    corpus and the damping factor. *)
Theorem transition_model_unknown_page (corpus : corpus_t) (current : page)
    (d : Q) :
  ~ In current (keys corpus) ->
  transition_model corpus current d = Raise KeyError.
Proof.
  intros Hcur. unfold transition_model.
  destruct (first_loop_returns corpus d) as [prob E].
  rewrite (bind_Ok _ _ _ E). now rewrite (getitem_not_In _ _ Hcur).
Qed.

Lemma transition_model_unknown_page_witness :
  ~ In "4.html" (keys example_corpus) /\
  transition_model (R:=Q) example_corpus "4.html" DAMPING = Raise KeyError.
Proof.
  assert (H1 : ~ In "4.html" (keys example_corpus)).
  { apply contains_not_In. reflexivity. }
  exact (conj H1
    (transition_model_unknown_page example_corpus "4.html" DAMPING H1)).
Defined.

Lemma bump_loop_missing (q : Q) (links : list page) :
  forall d : dict Q,
  (exists l, In l links /\ ~ In l (keys d)) ->
  for_each links (bump q) d = Raise KeyError.
Proof.
  induction links as [|l links IH]; intros d (bad & Hin & Hbad);
    [destruct Hin|].
  cbn [for_each]. destruct (in_dec string_dec l (keys d)) as [Hl|Hl].
  - destruct (bump_step q d l Hl) as (d' & E & K & _).
    rewrite E. cbn [bind]. apply IH. exists bad. rewrite K.
    destruct Hin as [<-|Hin]; [contradiction | auto].
  - unfold bump. now rewrite (getitem_not_In _ _ Hl).
Qed.

(** X6: [transition_model] relies on its caller for the closure of the
    links: when the current page links to a page that is not a key of the
    corpus, it raises [KeyError]. *)
Theorem transition_model_dangling_link (corpus : corpus_t) (current : page)
    (d : Q) (links : list page) (l : page) :
  nodupb (keys corpus) = true -> getitem corpus current = Ok links ->
  In l links -> ~ In l (keys corpus) ->
  transition_model corpus current d = Raise KeyError.
Proof.
  intros Hnd Hcur Hl Hout. apply nodupb_NoDup in Hnd.
  assert (Hne : corpus <> []) by (intros ->; discriminate).
  rewrite (transition_model_loops corpus current d links Hnd Hne Hcur).
  apply bump_loop_missing. exists l. now rewrite keys_constant_dict.
Qed.

Definition open_corpus : corpus_t :=
  [("1.html", ["2.html"; "9.html"]); ("2.html", [])].

Lemma transition_model_dangling_link_witness :
  nodupb (keys open_corpus) = true /\
  getitem open_corpus "1.html" = Ok ["2.html"; "9.html"] /\
  In "9.html" ["2.html"; "9.html"] /\ ~ In "9.html" (keys open_corpus) /\
  transition_model (R:=Q) open_corpus "1.html" DAMPING = Raise KeyError.
Proof.
  assert (H1 : nodupb (keys open_corpus) = true) by reflexivity.
  assert (H2 : getitem open_corpus "1.html" = Ok ["2.html"; "9.html"])
    by reflexivity.
  assert (H3 : In "9.html" ["2.html"; "9.html"]) by (right; now left).
  assert (H4 : ~ In "9.html" (keys open_corpus)).
  { apply contains_not_In. reflexivity. }
  exact (conj H1 (conj H2 (conj H3 (conj H4
    (transition_model_dangling_link open_corpus "1.html" DAMPING
       ["2.html"; "9.html"] "9.html" H1 H2 H3 H4))))).
Defined.

Lemma occurrences_NoDup (k : page) (ks : list page) :
  NoDup ks ->
  occurrences k ks = if contains ks k then 1%Z else 0%Z.
Proof.
  intros Hnd. unfold occurrences.
  destruct (contains ks k) eqn:Ec.
  - apply contains_In in Ec.
    pose proof (proj1 (NoDup_count_occ string_dec ks) Hnd k).
    pose proof (proj1 (count_occ_In string_dec ks k) Ec). lia.
  - apply contains_not_In in Ec.
    now rewrite (proj1 (count_occ_not_In string_dec ks k) Ec).
Qed.

(** X7: on a link graph, from a page that has [L >= 1] links, the
    distribution has the keys of the corpus; a linked page gets
    [(1 - d)/N + d/L], every other page [(1 - d)/N], and the values sum
    to one. *)
Theorem transition_model_values (corpus : corpus_t) (current : page)
    (d : Q) (links : list page) :
  link_graph corpus = true -> getitem corpus current = Ok links ->
  links <> [] ->
  exists prob,
    transition_model corpus current d = Ok prob /\
    keys prob = keys corpus /\
    total (values prob) == 1 /\
    forall web, In web (keys corpus) ->
      exists v, getitem prob web = Ok v /\
        v == (1 - d) / inject_Z (len corpus) +
             (if contains links web then d / inject_Z (len links) else 0).
Proof.
  intros Hg Hcur Hlinks.
  assert (Hne : corpus <> []) by (intros ->; discriminate).
  destruct (transition_model_spec corpus current d links
              (link_graph_keys _ Hg) Hne Hcur
              (link_graph_closed _ _ _ Hg Hcur)) as (prob & E & K & S & V).
  exists prob. split; [assumption|]. split; [assumption|]. split.
  - rewrite total_Qsum, S. destruct links; [congruence|]. cbn [is_empty]. ring.
  - intros web Hweb. destruct (V web Hweb) as (v & Ev & Hv).
    exists v. split; [assumption|]. rewrite Hv.
    assert (Hnd : NoDup links).
    { unfold link_graph, well_formed in Hg. rewrite !andb_true_iff in Hg.
      destruct Hg as [[[_ Hvals] _] _]. rewrite forallb_forall in Hvals.
      apply nodupb_NoDup, Hvals. unfold values.
      change links with (snd (current, links)). apply in_map.
      now apply getitem_In_pair. }
    rewrite (occurrences_NoDup web links Hnd).
    destruct (contains links web).
    + change (inject_Z 1) with 1. ring.
    + change (inject_Z 0) with 0. ring.
Qed.

Lemma transition_model_values_witness :
  link_graph example_corpus = true /\
  getitem example_corpus "1.html" = Ok ["2.html"; "3.html"] /\
  ["2.html"; "3.html"] <> [] /\
  exists prob,
    transition_model example_corpus "1.html" DAMPING = Ok prob /\
    keys prob = keys example_corpus /\
    total (values prob) == 1 /\
    forall web, In web (keys example_corpus) ->
      exists v, getitem prob web = Ok v /\
        v == (1 - DAMPING) / inject_Z (len example_corpus) +
             (if contains ["2.html"; "3.html"] web
              then DAMPING / inject_Z (len ["2.html"; "3.html"]) else 0).
Proof.
  assert (H1 : link_graph example_corpus = true) by reflexivity.
  assert (H2 : getitem example_corpus "1.html" = Ok ["2.html"; "3.html"])
    by reflexivity.
  assert (H3 : ["2.html"; "3.html"] <> @nil page) by discriminate.
  exact (conj H1 (conj H2 (conj H3
    (transition_model_values example_corpus "1.html" DAMPING
       ["2.html"; "3.html"] H1 H2 H3)))).
Defined.

(** ** More on the rankers *)

(** X8: [sample_pagerank] does not check [n]: with [n = 0] on a non-empty
    corpus, the first increment [1/n] raises [ZeroDivisionError], for
    every generator and damping factor. *)
Theorem sample_pagerank_zero_samples (G : Type) (getrandbits : G -> nat * G)
    (random : G -> Q * G) (g : G) (corpus : corpus_t) (d : Q) :
  nodupb (keys corpus) = true -> corpus <> [] ->
  sample_pagerank getrandbits random g corpus d 0 = Raise ZeroDivisionError.
Proof.
  intros Hnd Hne. apply nodupb_NoDup in Hnd.
  destruct (choice_total G getrandbits g (keys corpus)) as (p0 & g0 & Ec & Hp0).
  { destruct corpus; [congruence | discriminate]. }
  unfold sample_pagerank.
  rewrite (fill_loop _ (inject_Z 0) (keys corpus)); [|reflexivity|assumption].
  cbn [bind app]. rewrite (bind_Ok _ _ _ Ec). cbv beta iota.
  assert (E0 : getitem (map (fun k : page => (k, inject_Z 0)) (keys corpus)) p0
               = Ok (inject_Z 0)).
  { apply In_pair_getitem.
    - fold (constant_dict (keys corpus) (inject_Z 0)).
      now rewrite keys_constant_dict.
    - now apply (in_map (fun k : page => (k, inject_Z 0))). }
  rewrite (bind_Ok _ _ _ E0). reflexivity.
Qed.

Lemma sample_pagerank_zero_samples_witness :
  nodupb (keys example_corpus) = true /\ example_corpus <> [] /\
  sample_pagerank counter_bits counter_random 0%nat example_corpus DAMPING 0 =
    Raise ZeroDivisionError.
Proof.
  assert (H1 : nodupb (keys example_corpus) = true) by reflexivity.
  assert (H2 : example_corpus <> []) by discriminate.
  exact (conj H1 (conj H2
    (sample_pagerank_zero_samples nat counter_bits counter_random 0%nat
       example_corpus DAMPING H1 H2))).
Defined.

Lemma while_check_keys (corpus : corpus_t) (d : Q) (fuel : nat) :
  forall rank : dict Q,
  keys rank = keys corpus ->
  while_check fuel corpus d rank = None \/
  exists rank',
    while_check fuel corpus d rank = Some (Ok rank') /\
    keys rank' = keys corpus.
Proof.
  induction fuel as [|fuel IH]; intros rank Hkeys; [now left|].
  cbn [while_check].
  destruct (pass_total corpus d rank) as (rank' & count & E & K);
    [intros k Hk; now rewrite Hkeys|].
  rewrite E. destruct (converged corpus count).
  - right. exists rank'. split; [reflexivity | congruence].
  - apply IH. congruence.
Qed.

(** X9: [iterate_pagerank] raises no exception on a corpus, whatever its
    links (they need not be pages of the corpus) and whatever the damping
    factor; and a mapping that it returns has exactly the pages of the
    corpus as keys. *)
Theorem iterate_pagerank_never_raises (corpus : corpus_t) (d : Q)
    (fuel : nat) :
  nodupb (keys corpus) = true ->
  (forall e, iterate_pagerank fuel corpus d <> Some (Raise e)) /\
  (forall rank, iterate_pagerank fuel corpus d = Some (Ok rank) ->
     keys rank = keys corpus).
Proof.
  intros Hnd. apply nodupb_NoDup in Hnd.
  destruct (initial_rank_keys corpus Hnd) as (rank0 & E0 & K0).
  unfold iterate_pagerank. rewrite E0.
  destruct (while_check_keys corpus d fuel rank0 K0) as [E|(rank' & E & K)];
    rewrite E; split; try discriminate.
  intros rank Er. congruence.
Qed.

Lemma iterate_pagerank_never_raises_witness :
  nodupb (keys open_corpus) = true /\
  (forall e, iterate_pagerank (R:=Q) 20 open_corpus DAMPING <> Some (Raise e)) /\
  (forall rank : dict Q,
     iterate_pagerank 20 open_corpus DAMPING = Some (Ok rank) ->
     keys rank = keys open_corpus).
Proof.
  assert (H1 : nodupb (keys open_corpus) = true) by reflexivity.
  exact (conj H1 (iterate_pagerank_never_raises open_corpus DAMPING 20 H1)).
Defined.

Lemma setitem_same {V : Type} (d : dict V) (k : page) (v : V) :
  getitem d k = Ok v -> setitem d k v = d.
Proof.
  induction d as [|[k' v'] d IH]; cbn [getitem setitem]; [discriminate|].
  destruct (String.eqb_spec k k') as [->|Hne]; intros E.
  - apply Ok_inj in E. now subst.
  - now rewrite IH.
Qed.

Lemma sum_loop {A : Type} (c : Q) (xs : list A) :
  forall s0 : Q,
  exists s,
    for_each xs (fun s _ => Ok (add s c)) s0 = Ok s /\
    s == s0 + inject_Z (len xs) * c.
Proof.
  induction xs as [|x xs IH]; intros s0; cbn [for_each bind].
  - exists s0. split; [reflexivity|]. unfold len. cbn. ring.
  - destruct (IH (add s0 c)) as (s & E & Hs). exists s.
    split; [assumption|]. rewrite Hs. qnum. rewrite Qred_correct.
    unfold len. cbn [List.length].
    rewrite Nat2Z.inj_succ, <- Z.add_1_r, inject_Z_plus.
    change (inject_Z 1) with 1. ring.
Qed.

Section NoLinks.
Variable corpus : corpus_t.
Variable d : Q.

Hypothesis keys_distinct : NoDup (keys corpus).
Hypothesis nonempty : corpus <> [].
Hypothesis no_links : forall k v, In (k, v) corpus -> v = [].

(** The rank [1/N] as the program computes it. *)
Definition uniform_rank : dict Q :=
  constant_dict (keys corpus) (Qred (inject_Z 1 / inject_Z (len corpus))).

Lemma initial_rank_uniform : initial_rank corpus = Ok uniform_rank.
Proof.
  unfold initial_rank, uniform_rank.
  apply (fill_loop _ (Qred (inject_Z 1 / inject_Z (len corpus))));
    [|assumption].
  intros r k. qnum. now rewrite (truediv_Q _ _ (len_nonzero corpus nonempty)).
Qed.

Lemma getitem_uniform_rank (web : page) :
  In web (keys corpus) ->
  getitem uniform_rank web = Ok (Qred (inject_Z 1 / inject_Z (len corpus))).
Proof.
  intros Hweb. apply In_pair_getitem.
  - unfold uniform_rank. now rewrite keys_constant_dict.
  - unfold uniform_rank, constant_dict.
    now apply (in_map (fun k : page => (k, _))).
Qed.

Lemma new_rank_uniform (web : page) :
  new_rank corpus d uniform_rank web =
  Ok (Qred (inject_Z 1 / inject_Z (len corpus))).
Proof.
  pose proof (len_nonzero corpus nonempty) as HN.
  set (u := Qred (inject_Z 1 / inject_Z (len corpus))).
  destruct (sum_loop (Qred (u / inject_Z (len corpus))) (keys corpus)
              (inject_Z 0)) as (sigma & Es & Hs).
  unfold new_rank.
  rewrite (for_each_ext (keys corpus) _
             (fun s _ => Ok (add s (Qred (u / inject_Z (len corpus)))))).
  - rewrite (bind_Ok _ _ _ Es). qnum.
    rewrite (truediv_Q _ _ HN). cbn [bind]. apply (f_equal Ok).
    apply Qred_complete. rewrite !Qred_correct, Hs, len_keys.
    rewrite Qred_correct. unfold u. rewrite Qred_correct.
    change (inject_Z 0) with 0. change (inject_Z 1) with 1. field. exact HN.
  - intros s link Hlink.
    destruct (proj1 (getitem_In _ corpus link) Hlink) as [links El].
    assert (links = []) by (eapply no_links, getitem_In_pair; eassumption).
    subst links. rewrite El. cbn [bind contains existsb is_empty].
    rewrite (getitem_uniform_rank link Hlink). cbn [bind]. fold u. qnum.
    now rewrite (truediv_Q _ _ HN).
Qed.

Lemma pass_uniform_loop (ks : list page) :
  (forall k, In k ks -> In k (keys corpus)) ->
  forall count : nat,
  for_each ks
    (fun '(rank, count) web =>
       prob <- new_rank corpus d rank web ;;
       old <- getitem rank web ;;
       let count :=
         if leb (absolute (sub old prob)) tolerance then (count + 1)%nat
         else count in
       Ok (setitem rank web prob, count))
    (uniform_rank, count) = Ok (uniform_rank, (count + List.length ks)%nat).
Proof.
  induction ks as [|k ks IH]; intros Hsub count.
  - cbn [for_each List.length]. now rewrite Nat.add_0_r.
  - rewrite (for_each_cons k ks _ (uniform_rank, count)
               (uniform_rank, (count + 1)%nat)).
    + rewrite IH by (intros k' Hk'; apply Hsub; now right).
      cbn [List.length]. do 2 f_equal. lia.
    + cbv beta iota. rewrite new_rank_uniform. cbn [bind].
      rewrite (getitem_uniform_rank k (Hsub k (or_introl eq_refl))).
      cbn [bind]. cbv zeta.
      rewrite (setitem_same _ _ _
                 (getitem_uniform_rank k (Hsub k (or_introl eq_refl)))).
      set (u := Qred (inject_Z 1 / inject_Z (len corpus))).
      assert (Ht : leb (absolute (sub u u)) tolerance = true).
      { apply tolerance_test. apply Qabs_Qle_condition.
        assert (E0 : u - u == 0) by ring. rewrite E0. split; discriminate. }
      now rewrite Ht.
Qed.

Lemma iterate_pagerank_uniform (fuel : nat) :
  iterate_pagerank (S fuel) corpus d = Some (Ok uniform_rank).
Proof.
  assert (Hp : pass corpus d uniform_rank =
               Ok (uniform_rank, (0 + List.length (keys corpus))%nat))
    by exact (pass_uniform_loop (keys corpus) (fun k H => H) O).
  unfold iterate_pagerank. rewrite initial_rank_uniform. cbn [while_check].
  rewrite Hp. unfold converged, len, keys. rewrite length_map, Nat.add_0_l.
  now rewrite Z.leb_refl.
Qed.
End NoLinks.

(** X10: on a non-empty corpus in which no page has a link, the loop of
    [iterate_pagerank] ends after its first pass, for every damping
    factor, and every page gets the rank [1/N]: a page without links
    counts as linking to every page. *)
Theorem iterate_pagerank_no_links (corpus : corpus_t) (d : Q) (fuel : nat) :
  nodupb (keys corpus) = true -> corpus <> [] ->
  forallb is_empty (values corpus) = true ->
  exists rank,
    iterate_pagerank (S fuel) corpus d = Some (Ok rank) /\
    keys rank = keys corpus /\
    forall web v, getitem rank web = Ok v ->
      v == 1 / inject_Z (len corpus).
Proof.
  intros Hnd Hne Hempty. apply nodupb_NoDup in Hnd.
  exists (uniform_rank corpus). split; [|split].
  - apply iterate_pagerank_uniform; try assumption.
    intros k v Hin. rewrite forallb_forall in Hempty.
    specialize (Hempty v). destruct v; [reflexivity|].
    discriminate Hempty. unfold values.
    change (p :: v) with (snd (k, p :: v)). now apply in_map.
  - apply keys_constant_dict.
  - intros web v Ev. apply getitem_In_pair in Ev.
    unfold uniform_rank, constant_dict in Ev.
    apply in_map_iff in Ev as (k & Ek & _).
    apply (f_equal snd) in Ek. cbn [snd] in Ek. subst v.
    now rewrite Qred_correct.
Qed.

Definition isolated_corpus : corpus_t :=
  [("1.html", []); ("2.html", []); ("3.html", [])].

Lemma iterate_pagerank_no_links_witness :
  nodupb (keys isolated_corpus) = true /\ isolated_corpus <> [] /\
  forallb is_empty (values isolated_corpus) = true /\
  exists rank,
    iterate_pagerank 1 isolated_corpus DAMPING = Some (Ok rank) /\
    keys rank = keys isolated_corpus /\
    forall web v, getitem rank web = Ok v ->
      v == 1 / inject_Z (len isolated_corpus).
Proof.
  assert (H1 : nodupb (keys isolated_corpus) = true) by reflexivity.
  assert (H2 : isolated_corpus <> []) by discriminate.
  assert (H3 : forallb is_empty (values isolated_corpus) = true)
    by reflexivity.
  exact (conj H1 (conj H2 (conj H3
    (iterate_pagerank_no_links isolated_corpus DAMPING 0 H1 H2 H3)))).
Defined.

Lemma for_each_filter {A S : Type} (keep : A -> bool) (xs : list A)
    (body : S -> A -> result S) :
  (forall s x, keep x = false -> body s x = Ok s) ->
  forall s, for_each xs body s = for_each (filter keep xs) body s.
Proof.
  intros Hskip. induction xs as [|x xs IH]; intros s; cbn [for_each filter];
    [reflexivity|].
  destruct (keep x) eqn:Ek; cbn [for_each].
  - destruct (body s x); cbn [bind]; auto.
  - rewrite (Hskip s x Ek). cbn [bind]. apply IH.
Qed.

(** X11: [crawl] ignores the files whose name does not end in [".html"]:
    removing them from the directory does not change the corpus. *)
Theorem crawl_ignores_other_files :
  forall (findall : string -> list string)
    (directory : list (string * string)),
  crawl findall directory =
  crawl findall
    (filter (fun file => endswith (fst file) ".html") directory).
Proof.
  intros findall directory. unfold crawl.
  rewrite (for_each_filter (fun file => endswith (fst file) ".html")
             directory); [reflexivity|].
  intros pages [filename contents] Hskip. cbn [fst] in Hskip.
  now rewrite Hskip.
Qed.
